(** * The pursuit word learner of ADAM ([adam/learner/pursuit.py])

    A shallow embedding of [PursuitLanguageLearner] and the properties its
    specification states about it.

    Modelling choices.
    - Python [dict]s are insertion-ordered association lists ([Dict]); a
      hypothesis table is keyed by pattern _objects_, so the key equality on
      patterns stands for object identity, never for isomorphism.
    - Scores are Python floats in the source; here they are exact rationals
      ([Q]), the "real number" of the specification's data model.  IEEE
      rounding is not modelled.
    - The learner mutates its attributes in place and may raise in the middle
      of a call; a call is a function from the learner state to an outcome
      (value or exception) together with the state reached ([M]).
    - The pattern matching engine, the scene segmenter's graph walking, the
      pattern constructor and the random generator live outside the
      repository's sources; they are the fields of [Environment].
    - Logging ([_graph_logger], [_log_word_hypotheses_to]) is switched off, as
      it is by default. *)

From Stdlib Require Import List String Bool Arith Lia ZArith QArith Lqa.
Import ListNotations.

Set Implicit Arguments.

(** ** Key equality *)

Class EqDec (K : Type) := {
  eqb : K -> K -> bool;
  eqb_eq : forall x y, eqb x y = true <-> x = y
}.

#[export] Instance string_EqDec : EqDec string :=
  {| eqb := String.eqb; eqb_eq := String.eqb_eq |}.

#[export] Instance nat_EqDec : EqDec nat :=
  {| eqb := Nat.eqb; eqb_eq := Nat.eqb_eq |}.

#[export] Instance list_EqDec {K} `{EqDec K} : EqDec (list K).
Proof.
  refine {| eqb := fix go (a b : list K) : bool :=
              match a, b with
              | [], [] => true
              | x :: a', y :: b' => eqb x y && go a' b'
              | _, _ => false
              end |}.
  induction x as [|x a IH]; destruct y as [|y b]; simpl; split; intro E;
    try discriminate; try reflexivity.
  - apply andb_true_iff in E. destruct E as [E1 E2].
    apply eqb_eq in E1. apply IH in E2. congruence.
  - inversion E; subst. apply andb_true_iff. split.
    + now apply eqb_eq.
    + now apply IH.
Defined.

(** ** Python dictionaries as insertion-ordered association lists *)

Module Dict.
Section Ops.
Context {K V : Type} `{EqDec K}.

Definition t := list (K * V).

(** [d.get(k)] *)
Fixpoint get (k : K) (d : list (K * V)) : option V :=
match d with
| [] => None
| (k', v) :: r => if eqb k k' then Some v else get k r
end.

(** [k in d] *)
Definition mem (k : K) (d : list (K * V)) : bool :=
match get k d with Some _ => true | None => false end.

(** [d[k] = v]: an existing key keeps its place, a new one goes last. *)
Fixpoint set (k : K) (v : V) (d : list (K * V)) : list (K * V) :=
match d with
| [] => [(k, v)]
| (k', v') :: r =>
    if eqb k k' then (k', v) :: r else (k', v') :: set k v r
end.

(** [d.pop(k)] (the caller has checked that [k] is present). *)
Definition pop (k : K) (d : list (K * V)) : list (K * V) :=
filter (fun kv => negb (eqb k (fst kv))) d.

Definition keys (d : list (K * V)) : list K := map fst d.
Definition values (d : list (K * V)) : list V := map snd d.

(** [dict(pairs)] / [immutabledict(pairs)] *)
Definition of_pairs (l : list (K * V)) : list (K * V) :=
fold_left (fun d kv => set (fst kv) (snd kv) d) l [].
End Ops.
End Dict.

(** ** Float arithmetic of the learner, over exact rationals *)

Definition Qltb (x y : Q) : bool := negb (Qle_bool y x).

(** Reinforce A(w,h): [score + learning_factor * (1 - score)]. *)
Definition reinforce (gamma s : Q) : Q := s + gamma * (1 - s).

(** Penalize A(w,h): [score * (1.0 - learning_factor)]. *)
Definition penalize (gamma s : Q) : Q := s * (1 - gamma).

(** [max(xs, key=key)]: the first element whose key is maximal. *)
Fixpoint max_by {A} (key : A -> Q) (best : A) (l : list A) : A :=
  match l with
  | [] => best
  | x :: r => max_by key (if Qltb (key best) (key x) then x else best) r
  end.

Definition py_max {A} (key : A -> Q) (l : list A) : option A :=
  match l with
  | [] => None
  | x :: r => Some (max_by key x r)
  end.

(** [sum(xs)] *)
Definition py_sum (l : list Q) : Q := fold_left Qplus l 0.

(** ** Exceptions and the state of a call *)

Inductive exn :=
| RuntimeError (msg : string)
| KeyError
| IndexError
| ValueError
| ZeroDivisionError
| AssertionError.

Inductive outcome (A : Type) :=
| Val (a : A)
| Raise (e : exn).
Arguments Val {A} a.
Arguments Raise {A} e.

Definition M (S A : Type) := S -> outcome A * S.

Definition ret {S A} (a : A) : M S A := fun s => (Val a, s).
Definition raise {S A} (e : exn) : M S A := fun s => (Raise e, s).
Definition bind {S A B} (m : M S A) (k : A -> M S B) : M S B :=
  fun s => match m s with
           | (Val a, s') => k a s'
           | (Raise e, s') => (Raise e, s')
           end.
Definition gets {S A} (f : S -> A) : M S A := fun s => (Val (f s), s).
Definition modify {S} (f : S -> S) : M S unit := fun s => (Val tt, f s).
Definition lift_option {S A} (e : exn) (o : option A) : M S A :=
  match o with Some a => ret a | None => raise e end.

Declare Scope py_scope.
Delimit Scope py_scope with py.
Notation "x <- m ;; k" := (bind m (fun x => k))
  (at level 61, m at next level, right associativity) : py_scope.
Notation "m ;; k" := (bind m (fun _ => k))
  (at level 61, right associativity) : py_scope.

(** [for x in xs: body(x)] *)
Fixpoint for_each {S A} (body : A -> M S unit) (xs : list A) : M S unit :=
  match xs with
  | [] => ret tt
  | x :: r => bind (body x) (fun _ => for_each body r)
  end.

(** ** Collaborators outside the repository's sources *)

Class Environment (Pattern Graph Rng : Type) := {
  (** [get_largest_matching_pattern(pattern, graph, ...)] of [adam.learner] *)
  get_largest_matching_pattern : Pattern -> Graph -> option Pattern;
  (** [a.check_isomorphism(b)] *)
  check_isomorphism : Pattern -> Pattern -> bool;
  (** whether [pattern.matcher(graph, matching_objects=True).matches(...)]
      yields a match *)
  has_match : Pattern -> Graph -> bool;
  (** [len(pattern)]; a pattern is truthy iff it is not [0] *)
  pattern_len : Pattern -> nat;
  (** [len(pattern.copy_as_digraph().nodes)] *)
  num_digraph_nodes : Pattern -> nat;
  (** [PerceptionGraphPattern.from_graph(g).perception_graph_pattern] *)
  from_graph : Graph -> Pattern;
  (** the list returned by [get_objects_from_perception]; its body only walks
      a networkx graph *)
  get_objects_from_perception : Graph -> list Graph;
  (** [Random._randbelow] *)
  randbelow : Rng -> nat -> nat * Rng
}.

(** ** The learner *)

Section Learner.
Context {Pattern Graph Rng : Type} `{EqDec Pattern}.

(** [perception.frames[i]]: a [DevelopmentalPrimitivePerceptionFrame]
    carries the graph
    [graph_without_learner(PerceptionGraph.from_frame(frame).copy_as_digraph())]. *)
Inductive Frame :=
| DevelopmentalPrimitivePerceptionFrame (g : Graph)
| OtherFrame.

Record LearningExample := {
  perception_frames : list Frame;
  (** [linguistic_description.as_token_sequence()] *)
  linguistic_description : list string
}.

(** The attributes fixed at construction. *)
Record Params := {
  learning_factor : Q;
  graph_match_confirmation_threshold : Q;
  lexicon_entry_threshold : Q;
  smoothing_parameter : Q
}.

Definition hypotheses := list (Pattern * Q).

(** The mutable attributes. *)
Record State := {
  words_to_hypotheses_and_scores : list (string * hypotheses);
  lexicon : list (string * Pattern);
  words_to_number_of_observations : list (string * nat);
  rng : Rng;
  debug_counter : nat;
  observation_num : nat
}.

Definition initial_state (r : Rng) : State :=
  {| words_to_hypotheses_and_scores := [];
     lexicon := [];
     words_to_number_of_observations := [];
     rng := r;
     debug_counter := 0;
     observation_num := 0 |}.

Definition with_table (f : list (string * hypotheses) -> list (string * hypotheses))
    (s : State) : State :=
  {| words_to_hypotheses_and_scores := f (words_to_hypotheses_and_scores s);
     lexicon := lexicon s;
     words_to_number_of_observations := words_to_number_of_observations s;
     rng := rng s;
     debug_counter := debug_counter s;
     observation_num := observation_num s |}.

Definition with_lexicon (f : list (string * Pattern) -> list (string * Pattern))
    (s : State) : State :=
  {| words_to_hypotheses_and_scores := words_to_hypotheses_and_scores s;
     lexicon := f (lexicon s);
     words_to_number_of_observations := words_to_number_of_observations s;
     rng := rng s;
     debug_counter := debug_counter s;
     observation_num := observation_num s |}.

Definition with_counts (f : list (string * nat) -> list (string * nat))
    (s : State) : State :=
  {| words_to_hypotheses_and_scores := words_to_hypotheses_and_scores s;
     lexicon := lexicon s;
     words_to_number_of_observations := f (words_to_number_of_observations s);
     rng := rng s;
     debug_counter := debug_counter s;
     observation_num := observation_num s |}.

Definition with_rng (r : Rng) (s : State) : State :=
  {| words_to_hypotheses_and_scores := words_to_hypotheses_and_scores s;
     lexicon := lexicon s;
     words_to_number_of_observations := words_to_number_of_observations s;
     rng := r;
     debug_counter := debug_counter s;
     observation_num := observation_num s |}.

Definition incr_debug_counter (s : State) : State :=
  {| words_to_hypotheses_and_scores := words_to_hypotheses_and_scores s;
     lexicon := lexicon s;
     words_to_number_of_observations := words_to_number_of_observations s;
     rng := rng s;
     debug_counter := S (debug_counter s);
     observation_num := observation_num s |}.

Definition incr_observation_num (s : State) : State :=
  {| words_to_hypotheses_and_scores := words_to_hypotheses_and_scores s;
     lexicon := lexicon s;
     words_to_number_of_observations := words_to_number_of_observations s;
     rng := rng s;
     debug_counter := debug_counter s;
     observation_num := S (observation_num s) |}.

(** [PursuitLanguageLearner.PartialMatch] *)
Record PartialMatch := {
  matching_subgraph : option Pattern;
  num_nodes_matched : nat;
  num_nodes_in_pattern : nat
}.

Definition matched_exactly (pm : PartialMatch) : bool :=
  Nat.eqb (num_nodes_matched pm) (num_nodes_in_pattern pm).

(** [num_nodes_matched / num_nodes_in_pattern]; [None] is the
    [ZeroDivisionError] of a division by [0]. *)
Definition match_ratio (pm : PartialMatch) : option Q :=
  if Nat.eqb (num_nodes_in_pattern pm) 0 then None
  else Some (inject_Z (Z.of_nat (num_nodes_matched pm))
             / inject_Z (Z.of_nat (num_nodes_in_pattern pm))).

Section WithEnvironment.
Context {E : Environment Pattern Graph Rng}.
Variable cfg : Params.

Local Open Scope py_scope.

(** Truth value of an [Optional[PerceptionGraphPattern]]. *)
Definition truthy (o : option Pattern) : bool :=
  match o with
  | Some p => negb (Nat.eqb (pattern_len p) 0)
  | None => false
  end.

(** The value [_compute_match_ratio] returns. *)
Definition partial_match_of (pattern : Pattern) (graph : Graph) : PartialMatch :=
  let hypothesis_pattern_common_subgraph :=
    get_largest_matching_pattern pattern graph in
  {| matching_subgraph := hypothesis_pattern_common_subgraph;
     num_nodes_matched :=
       match hypothesis_pattern_common_subgraph with
       | Some p => if truthy (Some p) then num_digraph_nodes p else 0%nat
       | None => 0%nat
       end;
     num_nodes_in_pattern := pattern_len pattern |}.

Definition _compute_match_ratio (pattern : Pattern) (graph : Graph)
  : M State PartialMatch :=
  modify incr_debug_counter ;;
  ret (partial_match_of pattern graph).

(** [_find_identical_hypothesis] *)
Fixpoint _find_identical_hypothesis (new_hypothesis : Pattern)
    (candidates : list Pattern) : option Pattern :=
  match candidates with
  | [] => None
  | candidate :: r =>
      if check_isomorphism new_hypothesis candidate then Some candidate
      else _find_identical_hypothesis new_hypothesis r
  end.

(** [_leading_hypothesis_for] *)
Definition leading_of (h : hypotheses) : option (Pattern * Q) :=
  py_max (fun entry => snd entry) h.

Definition _leading_hypothesis_for (word : string) (s : State)
  : option (Pattern * Q) :=
  match Dict.get word (words_to_hypotheses_and_scores s) with
  | Some h => leading_of h
  | None => None
  end.

(** [self._rng.choice(objects)] *)
Definition rng_choice (objects : list Graph) : M State Graph :=
  match objects with
  | [] => raise IndexError
  | _ =>
      r <- gets rng ;;
      let (i, r') := randbelow r (List.length objects) in
      modify (with_rng r') ;;
      lift_option IndexError (nth_error objects i)
  end.

(** *** [initialization_step] *)

(** The scores of all hypotheses of all words that are isomorphic to
    [meaning], in iteration order. *)
Definition association_scores (table : list (string * hypotheses))
    (meaning : Pattern) : list Q :=
  flat_map (fun w_h => map snd
              (filter (fun h_s => check_isomorphism (fst h_s) meaning)
                      (snd w_h)))
           table.

Definition max_association_score (table : list (string * hypotheses))
    (meaning : Pattern) : Q :=
  match py_max (fun s => s) (association_scores table meaning ++ [0]) with
  | Some s => s
  | None => 0
  end.

(** The loop over [meanings]; [None] is [float("inf")]. *)
Fixpoint select_meaning (table : list (string * hypotheses))
    (meanings : list Pattern) (pattern_hypothesis : Pattern)
    (min_score : option Q) : Pattern * option Q :=
  match meanings with
  | [] => (pattern_hypothesis, min_score)
  | meaning :: r =>
      let max_association := max_association_score table meaning in
      if match min_score with
         | None => true
         | Some m => Qltb max_association m
         end
      then select_meaning table r meaning (Some max_association)
      else select_meaning table r pattern_hypothesis min_score
  end.

Definition initialization_step (word : string) (graph : Graph)
  : M State unit :=
  let meanings := map from_graph (get_objects_from_perception graph) in
  first_meaning <- lift_option ValueError (hd_error meanings) ;;
  table <- gets words_to_hypotheses_and_scores ;;
  let pattern_hypothesis :=
    fst (select_meaning table meanings first_meaning None) in
  modify (with_table
            (Dict.set word [(pattern_hypothesis, learning_factor cfg)])).

(** *** [learning_step] *)

(** [hypotheses_for_word[h] = f(hypotheses_for_word)]: the table of [word]
    is one shared object, updated in place. *)
Definition update_hypotheses (word : string)
    (f : hypotheses -> hypotheses) : M State unit :=
  modify (with_table (fun table =>
    match Dict.get word table with
    | Some h => Dict.set word (f h) table
    | None => table
    end)).

(** The loop [for hypothesis in hypotheses_for_word] of the random
    branch: the hypotheses whose match ratio against the chosen object
    exceeds the threshold. *)
Fixpoint boosted_by_object (chosen_object : Graph) (hs : list Pattern)
  : M State (list Pattern) :=
  match hs with
  | [] => ret []
  | hypothesis :: r =>
      pm <- _compute_match_ratio hypothesis chosen_object ;;
      ratio <- lift_option ZeroDivisionError (match_ratio pm) ;;
      rest <- boosted_by_object chosen_object r ;;
      ret (if Qltb (graph_match_confirmation_threshold cfg) ratio
           then hypothesis :: rest else rest)
  end.

(** The random branch: one object of the scene, chosen at random, and
    the hypotheses that match it. *)
Definition reward_random_object (graph : Graph)
    (hypotheses_for_word : hypotheses) : M State (list Pattern) :=
  chosen_object <- rng_choice (get_objects_from_perception graph) ;;
  others <- boosted_by_object chosen_object
              (Dict.keys hypotheses_for_word) ;;
  ret (from_graph chosen_object :: others).

(** The hypotheses gathered for reward after a disconfirmation. *)
Definition hypotheses_to_reward (graph : Graph) (pm : PartialMatch)
    (hypotheses_for_word : hypotheses) : M State (list Pattern) :=
  ratio <- lift_option ZeroDivisionError (match_ratio pm) ;;
  match matching_subgraph pm with
  | Some sub =>
      if Qle_bool (graph_match_confirmation_threshold cfg) ratio
         && truthy (Some sub)
      then ret [sub]
      else reward_random_object graph hypotheses_for_word
  | None => reward_random_object graph hypotheses_for_word
  end.

(** The object whose score a hypothesis marked for reward changes. *)
Definition resolve (hypothesis_to_reward : Pattern)
    (hypotheses_for_word : hypotheses) : Pattern :=
  if Dict.mem hypothesis_to_reward hypotheses_for_word
  then hypothesis_to_reward
  else
    let existing := _find_identical_hypothesis hypothesis_to_reward
                      (Dict.keys hypotheses_for_word) in
    match existing with
    | Some e => if truthy existing then e else hypothesis_to_reward
    | None => hypothesis_to_reward
    end.

(** The loop [for hypothesis_to_reward in hypotheses_to_reward], with the
    set [hypothesis_objects_boosted_on_this_update]. *)
Fixpoint reward_loop (to_reward : list Pattern)
    (hypotheses_for_word : hypotheses) (boosted : list Pattern)
  : hypotheses * list Pattern :=
  match to_reward with
  | [] => (hypotheses_for_word, boosted)
  | hypothesis_to_reward :: r =>
      let hypothesis_object_to_reward :=
        resolve hypothesis_to_reward hypotheses_for_word in
      if existsb (eqb hypothesis_object_to_reward) boosted
      then reward_loop r hypotheses_for_word boosted
      else
        let cur_score_for_new_hypothesis :=
          match Dict.get hypothesis_object_to_reward hypotheses_for_word with
          | Some s => s
          | None => 0
          end in
        reward_loop r
          (Dict.set hypothesis_object_to_reward
             (reinforce (learning_factor cfg) cur_score_for_new_hypothesis)
             hypotheses_for_word)
          (hypothesis_object_to_reward :: boosted)
  end.

Definition score_in (h : hypotheses) (p : Pattern) : Q :=
  match Dict.get p h with Some s => s | None => 0 end.

Definition learning_step (word : string) (graph : Graph) : M State bool :=
  table <- gets words_to_hypotheses_and_scores ;;
  hypotheses_for_word <- lift_option KeyError (Dict.get word table) ;;
  leading_hypothesis_pattern <-
    lift_option ValueError
      (py_max (score_in hypotheses_for_word) (Dict.keys hypotheses_for_word)) ;;
  let current_hypothesis_score :=
    score_in hypotheses_for_word leading_hypothesis_pattern in
  modify incr_debug_counter ;;
  partial_match <- _compute_match_ratio leading_hypothesis_pattern graph ;;
  let hypothesis_is_confirmed := matched_exactly partial_match in
  if hypothesis_is_confirmed && truthy (matching_subgraph partial_match)
  then
    update_hypotheses word
      (Dict.set leading_hypothesis_pattern
         (reinforce (learning_factor cfg) current_hypothesis_score)) ;;
    ret hypothesis_is_confirmed
  else
    let penalized :=
      Dict.set leading_hypothesis_pattern
        (penalize (learning_factor cfg) current_hypothesis_score)
        hypotheses_for_word in
    update_hypotheses word (fun _ => penalized) ;;
    to_reward <- hypotheses_to_reward graph partial_match penalized ;;
    update_hypotheses word (fun h => fst (reward_loop to_reward h [])) ;;
    ret hypothesis_is_confirmed.

(** *** [lexicon_step] *)

Definition probability_of_meaning_given_word
    (leading_hypothesis_score : Q) (all_hypotheses_for_word : hypotheses)
  : option Q :=
  let sum_of_all_scores := py_sum (Dict.values all_hypotheses_for_word) in
  let number_of_meanings :=
    inject_Z (Z.of_nat (List.length all_hypotheses_for_word)) in
  let denominator :=
    sum_of_all_scores + number_of_meanings * smoothing_parameter cfg in
  if Qeq_bool denominator 0 then None
  else Some ((leading_hypothesis_score + smoothing_parameter cfg)
             / denominator).

Definition lexicon_step (word : string) : M State unit :=
  leading_hypothesis_entry <- gets (_leading_hypothesis_for word) ;;
  entry <- lift_option AssertionError leading_hypothesis_entry ;;
  let (leading_hypothesis_pattern, leading_hypothesis_score) := entry in
  table <- gets words_to_hypotheses_and_scores ;;
  all_hypotheses_for_word <- lift_option KeyError (Dict.get word table) ;;
  probability <- lift_option ZeroDivisionError
    (probability_of_meaning_given_word leading_hypothesis_score
       all_hypotheses_for_word) ;;
  counts <- gets words_to_number_of_observations ;;
  times_word_has_been_seen <- lift_option KeyError (Dict.get word counts) ;;
  if Qltb (lexicon_entry_threshold cfg) probability
  then
    if Nat.ltb 5 times_word_has_been_seen
    then
      modify (with_lexicon (Dict.set word leading_hypothesis_pattern)) ;;
      modify (with_table (Dict.pop word))
    else ret tt
  else ret tt.

(** *** [learn_with_pursuit] and [observe] *)

Definition count_observation (word : string) : M State unit :=
  modify (with_counts (fun counts =>
    match Dict.get word counts with
    | Some n => Dict.set word (n + 1)%nat counts
    | None => Dict.set word 1%nat counts
    end)).

(** The body of the loop [for word in observed_linguistic_description]. *)
Definition learn_word (graph : Graph) (word : string) : M State unit :=
  if String.eqb word "a" || String.eqb word "the" then ret tt
  else
    count_observation word ;;
    lex <- gets lexicon ;;
    if negb (Dict.mem word lex)
    then
      table <- gets words_to_hypotheses_and_scores ;;
      if negb (Dict.mem word table)
      then initialization_step word graph
      else
        is_hypothesis_confirmed <- learning_step word graph ;;
        if is_hypothesis_confirmed then lexicon_step word else ret tt
    else ret tt.

Definition learn_with_pursuit (graph : Graph)
    (observed_linguistic_description : list string) : M State unit :=
  for_each (learn_word graph) observed_linguistic_description.

(** The frame checks shared by [observe] and [describe]. *)
Definition single_frame_graph (msg : string) (frames : list Frame)
  : outcome Graph :=
  match frames with
  | [frame] =>
      match frame with
      | DevelopmentalPrimitivePerceptionFrame g => Val g
      | OtherFrame => Raise (RuntimeError "Cannot process perception type.")
      end
  | _ => Raise (RuntimeError msg)
  end.

Definition observe (learning_example : LearningExample) : M State unit :=
  modify incr_observation_num ;;
  match single_frame_graph
          "Pursuit learner can only handle single frames for now"
          (perception_frames learning_example) with
  | Val observed_perception_graph =>
      learn_with_pursuit observed_perception_graph
        (linguistic_description learning_example)
  | Raise e => raise e
  end.

(** *** [describe] *)

Definition describe_lexicon (graph : Graph) (lex : list (string * Pattern))
  : list (list string * Q) :=
  flat_map (fun w_p =>
              if has_match (snd w_p) graph
              then [(["a"%string; fst w_p], 1)] else [])
           lex.

Definition describe_hypotheses (graph : Graph) (s : State)
  : list (list string * Q) :=
  flat_map (fun word =>
              match _leading_hypothesis_for word s with
              | Some (leading_hypothesis, score) =>
                  if has_match leading_hypothesis graph
                  then [(["a"%string; word], score)] else []
              | None => []
              end)
           (Dict.keys (words_to_hypotheses_and_scores s)).

Definition describe (frames : list Frame) (s : State)
  : outcome (list (list string * Q)) :=
  match single_frame_graph
          "Subset learner can only handle single frames for now" frames with
  | Val observed_perception_graph =>
      let descriptions :=
        describe_lexicon observed_perception_graph (lexicon s) in
      Val (Dict.of_pairs
             (match descriptions with
              | [] => describe_hypotheses observed_perception_graph s
              | _ => descriptions
              end))
  | Raise e => Raise e
  end.

End WithEnvironment.
End Learner.

(** ** Predicates used by the statements *)

Section Predicates.
Context {Pattern Graph Rng : Type} `{EqDec Pattern}.

(** The states a run can reach: the freshly constructed learner, then any
    sequence of [observe] calls.  The collaborators may answer differently
    from one call to the next (they build new objects at every call), so
    each call comes with its own [Environment]; a call that raised leaves
    the learner in the state it had reached. *)
Inductive reachable (cfg : Params) : State (Pattern:=Pattern) (Rng:=Rng) -> Prop :=
| reachable_init : forall r, reachable cfg (initial_state r)
| reachable_observe :
    forall (E : Environment Pattern Graph Rng) (ex : LearningExample) s,
      reachable cfg s -> reachable cfg (snd (observe cfg ex s)).


(** Every score of [post] is the score of [pre], or that score (0 for a new
    key) reinforced exactly once. *)
Definition rewarded_at_most_once (gamma : Q) (pre post : hypotheses (Pattern:=Pattern)) : Prop :=
  forall h, Dict.get h post = Dict.get h pre
            \/ Dict.get h post = Some (reinforce gamma (score_in pre h)).
(** What a query of the collaborators leaves alone. *)
Definition same_tables (s s' : State (Pattern:=Pattern) (Rng:=Rng)) : Prop :=
  words_to_hypotheses_and_scores s' = words_to_hypotheses_and_scores s
  /\ lexicon s' = lexicon s
  /\ words_to_number_of_observations s' = words_to_number_of_observations s
  /\ observation_num s' = observation_num s.

(** The test of the random branch: the match ratio of [h] against the
    chosen object exceeds the confirmation threshold. *)
Definition ratio_exceeds {E : Environment Pattern Graph Rng} (cfg : Params)
    (chosen_object : Graph) (h : Pattern) : bool :=
  match match_ratio (partial_match_of h chosen_object) with
  | Some ratio => Qltb (graph_match_confirmation_threshold cfg) ratio
  | None => false
  end.

(** A lexicalized word has no hypothesis table entry and has been observed
    at least six times. *)
Definition lexicon_invariant (s : State (Pattern:=Pattern) (Rng:=Rng)) : Prop :=
  forall w,
    Dict.mem w (lexicon s) = true ->
    Dict.mem w (words_to_hypotheses_and_scores s) = false
    /\ exists n, Dict.get w (words_to_number_of_observations s) = Some n
                 /\ (6 <= n)%nat.
(** How often a word occurs in a description. *)
Fixpoint occurrences (w : string) (words : list string) : nat :=
  match words with
  | [] => 0
  | w' :: r => ((if String.eqb w' w then 1 else 0) + occurrences w r)%nat
  end.

(** The words [learn_with_pursuit] skips. *)
Definition is_determiner (word : string) : bool :=
  String.eqb word "a" || String.eqb word "the".

(** How often a word has been observed; a word never seen has no counter. *)
Definition count_of (s : State (Pattern:=Pattern) (Rng:=Rng)) (w : string) : nat :=
  match Dict.get w (words_to_number_of_observations s) with
  | Some n => n
  | None => 0%nat
  end.

(** Every score of a hypothesis table lies in [0, 1]. *)
Definition in_range (h : hypotheses (Pattern:=Pattern)) : Prop :=
  forall p sc, In (p, sc) h -> 0 <= sc /\ sc <= 1.

(** No pattern object is a key of a word's hypothesis table twice. *)
Definition distinct_keys (s : State (Pattern:=Pattern) (Rng:=Rng)) : Prop :=
  forall w hyps,
    In (w, hyps) (words_to_hypotheses_and_scores s) -> NoDup (Dict.keys hyps).

(** Every score of every hypothesis table lies in [0, 1]. *)
Definition scores_in_range (s : State (Pattern:=Pattern) (Rng:=Rng)) : Prop :=
  forall w hyps p sc,
    In (w, hyps) (words_to_hypotheses_and_scores s) -> In (p, sc) hyps ->
    0 <= sc /\ sc <= 1.

(** No word of the hypothesis table has an empty table, and every such word
    has an observation counter. *)
Definition tables_inhabited (s : State (Pattern:=Pattern) (Rng:=Rng)) : Prop :=
  forall w hyps,
    In (w, hyps) (words_to_hypotheses_and_scores s) ->
    hyps <> [] /\ Dict.mem w (words_to_number_of_observations s) = true.

(** The determiners are keys of none of the learner's dictionaries. *)
Definition determiners_unknown (s : State (Pattern:=Pattern) (Rng:=Rng)) : Prop :=
  forall d,
    is_determiner d = true ->
    Dict.mem d (words_to_number_of_observations s) = false
    /\ Dict.mem d (words_to_hypotheses_and_scores s) = false
    /\ Dict.mem d (lexicon s) = false.
End Predicates.

(** ** A small concrete world, used to run the learner

    Patterns and graphs are numbers.  A graph [g] has the candidate objects
    [g] and [g + 1]; the pattern built from graph [g] is [g]; a pattern
    matches exactly the graph with its own number; two patterns are
    isomorphic when they are equal modulo 10; every pattern has two nodes;
    the random generator always draws the first object. *)

Definition toy_env : Environment nat nat unit :=
  {| get_largest_matching_pattern := fun p g => if Nat.eqb p g then Some p else None;
     check_isomorphism := fun a b => Nat.eqb (a mod 10) (b mod 10);
     has_match := fun p g => Nat.eqb p g;
     pattern_len := fun _ => 2%nat;
     num_digraph_nodes := fun _ => 2%nat;
     from_graph := fun g => g;
     get_objects_from_perception := fun g => [g; S g];
     randbelow := fun r _ => (0%nat, r) |}.

(** A world whose engine finds half of pattern [1] in the scene [7], and all
    of it in the scene's only object [8]. *)
Definition split_env : Environment nat nat unit :=
  {| get_largest_matching_pattern := fun p g =>
       match p, g with
       | 1%nat, 7%nat => Some 5%nat
       | 1%nat, 8%nat => Some 1%nat
       | _, _ => None
       end;
     check_isomorphism := Nat.eqb;
     has_match := fun _ _ => false;
     pattern_len := fun p => 2%nat;
     num_digraph_nodes := fun p => if Nat.eqb p 5 then 1%nat else 2%nat;
     from_graph := fun g => (100 + g)%nat;
     get_objects_from_perception := fun g => if Nat.eqb g 7 then [8%nat] else [];
     randbelow := fun r _ => (0%nat, r) |}.

Definition toy_cfg : Params :=
  {| learning_factor := 1 # 2;
     graph_match_confirmation_threshold := 7 # 10;
     lexicon_entry_threshold := 7 # 10;
     smoothing_parameter := 1 # 1000 |}.

Definition toy_state (table : list (string * list (nat * Q)))
    (lex : list (string * nat)) (counts : list (string * nat)) : State :=
  {| words_to_hypotheses_and_scores := table;
     lexicon := lex;
     words_to_number_of_observations := counts;
     rng := tt;
     debug_counter := 0;
     observation_num := 0 |}.

(** The scene [3] described as "a ball", and the learner after [n]
    observations of it. *)
Definition ball_example : LearningExample (Graph:=nat) :=
  {| perception_frames := [DevelopmentalPrimitivePerceptionFrame 3%nat];
     linguistic_description := ["a"; "ball"]%string |}.

Definition observe_n (n : nat) : State (Pattern:=nat) (Rng:=unit) :=
  Nat.iter n (fun s => snd (observe (E:=toy_env) toy_cfg ball_example s))
    (initial_state tt).

(** A perception with two frames. *)
Definition two_frame_example : LearningExample (Graph:=nat) :=
  {| perception_frames := [DevelopmentalPrimitivePerceptionFrame 3%nat;
                           DevelopmentalPrimitivePerceptionFrame 3%nat];
     linguistic_description := ["a"; "ball"]%string |}.

(** "ball" seen once, with the single hypothesis [1] at score 1/2. *)
Definition split_state : State (Pattern:=nat) (Rng:=unit) :=
  toy_state [("ball"%string, [(1%nat, 1 # 2)])] [] [("ball"%string, 1%nat)].

(** ** Facts about dictionaries *)

Section DictFacts.
Context {K V : Type} `{EqDec K}.
Implicit Types (k : K) (v : V) (d : list (K * V)).

Lemma eqb_refl k : eqb k k = true.
Proof. now apply eqb_eq. Qed.

Lemma eqb_neq k k' : eqb k k' = false <-> k <> k'.
Proof.
  split.
  - intros E Heq. apply eqb_eq in Heq. congruence.
  - intros N. destruct (eqb k k') eqn:E; [|reflexivity].
    apply eqb_eq in E. contradiction.
Qed.

Lemma get_set_same k v d : Dict.get k (Dict.set k v d) = Some v.
Proof.
  induction d as [|[k' v'] r IH]; simpl.
  - now rewrite eqb_refl.
  - destruct (eqb k k') eqn:E; simpl; rewrite E; auto.
Qed.

Lemma get_set_other k k' v d :
  k <> k' -> Dict.get k' (Dict.set k v d) = Dict.get k' d.
Proof.
  intros N. induction d as [|[k0 v0] r IH]; simpl.
  - assert (eqb k' k = false) as -> by (apply eqb_neq; congruence).
    reflexivity.
  - destruct (eqb k k0) eqn:E; simpl.
    + apply eqb_eq in E. subst k0.
      assert (eqb k' k = false) as -> by (apply eqb_neq; congruence).
      reflexivity.
    + destruct (eqb k' k0); auto.
Qed.

Lemma mem_set k k' v d :
  Dict.mem k' (Dict.set k v d) = eqb k' k || Dict.mem k' d.
Proof.
  unfold Dict.mem. destruct (eqb k' k) eqn:E.
  - apply eqb_eq in E. subst. now rewrite get_set_same.
  - rewrite get_set_other; [reflexivity|].
    apply eqb_neq in E. congruence.
Qed.

Lemma mem_keys k d : Dict.mem k d = true <-> In k (Dict.keys d).
Proof.
  unfold Dict.mem. induction d as [|[k' v'] r IH]; simpl.
  - split; [discriminate | contradiction].
  - destruct (eqb k k') eqn:E.
    + apply eqb_eq in E. subst. split; auto.
    + rewrite IH. apply eqb_neq in E. split; [auto|].
      intros [F|F]; [congruence|assumption].
Qed.

Lemma get_In k v d : Dict.get k d = Some v -> In (k, v) d.
Proof.
  induction d as [|[k' v'] r IH]; simpl; [discriminate|].
  destruct (eqb k k') eqn:E.
  - apply eqb_eq in E. intros [= ->]. subst. now left.
  - auto.
Qed.

Lemma In_get k v d : In (k, v) d -> exists v', Dict.get k d = Some v'.
Proof.
  induction d as [|[k' v'] r IH]; simpl; [contradiction|].
  intros [E|I].
  - inversion E; subst. rewrite eqb_refl. eauto.
  - destruct (eqb k k'); eauto.
Qed.

Lemma set_absent k v d : Dict.get k d = None -> Dict.set k v d = d ++ [(k, v)].
Proof.
  induction d as [|[k' v'] r IH]; simpl; [reflexivity|].
  destruct (eqb k k'); [discriminate|].
  intros G. now rewrite IH.
Qed.

Lemma keys_set_present k v d :
  Dict.mem k d = true -> Dict.keys (Dict.set k v d) = Dict.keys d.
Proof.
  unfold Dict.mem, Dict.keys. induction d as [|[k' v'] r IH]; simpl; [discriminate|].
  destruct (eqb k k') eqn:E; simpl; [reflexivity|].
  intros G. now rewrite IH.
Qed.

Lemma keys_set_absent k v d :
  Dict.mem k d = false -> Dict.keys (Dict.set k v d) = Dict.keys d ++ [k].
Proof.
  unfold Dict.mem. intros G. rewrite set_absent.
  - unfold Dict.keys. now rewrite map_app.
  - destruct (Dict.get k d); [discriminate|reflexivity].
Qed.

Lemma mem_pop k k' d :
  Dict.mem k' (Dict.pop k d) = negb (eqb k k') && Dict.mem k' d.
Proof.
  unfold Dict.mem, Dict.pop. induction d as [|[k0 v0] r IH]; simpl.
  - now rewrite andb_false_r.
  - destruct (eqb k k0) eqn:E; simpl.
    + apply eqb_eq in E. subst k0. rewrite IH.
      destruct (eqb k' k) eqn:E'; [|reflexivity].
      apply eqb_eq in E'. subst. now rewrite eqb_refl.
    + destruct (eqb k' k0) eqn:E'; [|exact IH].
      apply eqb_eq in E'. subst k0. now rewrite E.
Qed.

Lemma get_app k d d' :
  Dict.get k (d ++ d') =
  match Dict.get k d with Some v => Some v | None => Dict.get k d' end.
Proof.
  induction d as [|[k0 v0] r IH]; simpl; [reflexivity|].
  destruct (eqb k k0); auto.
Qed.

(** [dict(pairs)[k]] is the last binding of [k] among the pairs. *)
Lemma get_fold_set k (l : list (K * V)) d :
  Dict.get k (fold_left (fun d kv => Dict.set (fst kv) (snd kv) d) l d) =
  match Dict.get k (rev l) with Some v => Some v | None => Dict.get k d end.
Proof.
  revert d. induction l as [|[k1 v1] l IH]; intros d; simpl; [reflexivity|].
  rewrite IH, get_app. destruct (Dict.get k (rev l)); [reflexivity|].
  simpl. destruct (eqb k k1) eqn:E.
  - apply eqb_eq in E. subst. apply get_set_same.
  - apply get_set_other. apply eqb_neq in E. congruence.
Qed.


Lemma get_of_pairs_In k v (l : list (K * V)) :
  Dict.get k (Dict.of_pairs l) = Some v -> In (k, v) l.
Proof.
  unfold Dict.of_pairs. rewrite get_fold_set. simpl.
  destruct (Dict.get k (rev l)) eqn:G; [|discriminate].
  intros [= ->]. apply get_In in G. now apply in_rev.
Qed.
End DictFacts.

(** ** Facts about the score arithmetic *)

Lemma Qltb_lt x y : Qltb x y = true <-> x < y.
Proof.
  unfold Qltb. rewrite negb_true_iff. split.
  - intros E. apply Qnot_le_lt. intros L.
    apply Qle_bool_iff in L. congruence.
  - intros L. destruct (Qle_bool y x) eqn:E; [|reflexivity].
    apply Qle_bool_iff in E. exfalso. eapply Qlt_not_le; eauto.
Qed.

Lemma Qltb_ge x y : Qltb x y = false <-> y <= x.
Proof.
  unfold Qltb. rewrite negb_false_iff. apply Qle_bool_iff.
Qed.





(** ** Facts about the learner's steps *)

Section LearnerFacts.
Context {Pattern Graph Rng : Type} `{EqDec Pattern}.
Context {E : Environment Pattern Graph Rng}.
Variable cfg : Params.

Local Abbreviation State := (State (Pattern:=Pattern) (Rng:=Rng)).
Local Abbreviation table := words_to_hypotheses_and_scores.
Local Abbreviation counts := words_to_number_of_observations.

Lemma same_tables_refl (s : State) : same_tables s s.
Proof. repeat split. Qed.

Lemma same_tables_trans (s1 s2 s3 : State) :
  same_tables s1 s2 -> same_tables s2 s3 -> same_tables s1 s3.
Proof.
  unfold same_tables. intros (A1 & A2 & A3 & A4) (B1 & B2 & B3 & B4).
  repeat split; congruence.
Qed.

Ltac munfold :=
  unfold bind, ret, raise, gets, modify, lift_option, _compute_match_ratio;
  simpl.

(** *** The random branch *)

Lemma boosted_by_object_frame g hs :
  forall s, same_tables s (snd (boosted_by_object cfg g hs s)).
Proof.
  induction hs as [|h r IH]; intros s; simpl.
  - apply same_tables_refl.
  - munfold. destruct (match_ratio (partial_match_of h g)); simpl.
    + specialize (IH (incr_debug_counter s)).
      destruct (boosted_by_object cfg g r (incr_debug_counter s)) as [[l|e] s'];
        simpl in *; exact IH.
    + repeat split.
Qed.

Lemma boosted_by_object_val g hs :
  forall s l s', boosted_by_object cfg g hs s = (Val l, s') ->
                 l = filter (ratio_exceeds cfg g) hs.
Proof.
  induction hs as [|h r IH]; intros s l s'; simpl.
  - munfold. now intros [= <- <-].
  - munfold. unfold ratio_exceeds.
    destruct (match_ratio (partial_match_of h g)) as [q|]; simpl; [|discriminate].
    destruct (boosted_by_object cfg g r (incr_debug_counter s)) as [[l0|e] s0] eqn:B;
      simpl; [|discriminate].
    intros [= <- <-]. apply IH in B. subst l0.
    destruct (Qltb _ q); reflexivity.
Qed.


Lemma rng_choice_frame objects s :
  same_tables s (snd (rng_choice objects s)).
Proof.
  destruct objects as [|o r]; simpl.
  - apply same_tables_refl.
  - munfold. destruct (randbelow (rng s) (S (List.length r))) as [i r'].
    munfold. destruct (nth_error (o :: r) i); repeat split.
Qed.

Lemma rng_choice_val objects s o s' :
  rng_choice objects s = (Val o, s') -> In o objects.
Proof.
  destruct objects as [|o0 r]; simpl.
  - discriminate.
  - munfold. destruct (randbelow (rng s) (S (List.length r))) as [i r'].
    munfold. destruct (nth_error (o0 :: r) i) as [o1|] eqn:N; [|discriminate].
    intros [= <- <-]. change (In o1 (o0 :: r)). eapply nth_error_In; eauto.
Qed.

Lemma reward_random_object_frame g hyps s :
  same_tables s (snd (reward_random_object cfg g hyps s)).
Proof.
  unfold reward_random_object. unfold bind at 1.
  pose proof (rng_choice_frame (get_objects_from_perception g) s) as F1.
  destruct (rng_choice (get_objects_from_perception g) s) as [[o|e] s1];
    simpl in *; [|exact F1].
  unfold bind at 1.
  pose proof (boosted_by_object_frame o (Dict.keys hyps) s1) as F2.
  destruct (boosted_by_object cfg o (Dict.keys hyps) s1) as [[l|e] s2];
    simpl in *; eapply same_tables_trans; eauto.
Qed.

(** What the random branch gathers: the pattern of the chosen object, then
    every key of the table -- the leading one included -- whose match
    ratio against that object exceeds the threshold. *)
Lemma reward_random_object_val g hyps s l s' :
  reward_random_object cfg g hyps s = (Val l, s') ->
  exists chosen_object,
    In chosen_object (get_objects_from_perception g)
    /\ l = from_graph chosen_object
           :: filter (ratio_exceeds cfg chosen_object) (Dict.keys hyps).
Proof.
  unfold reward_random_object. unfold bind at 1.
  destruct (rng_choice (get_objects_from_perception g) s) as [[o|e] s1] eqn:C;
    [|discriminate].
  unfold bind at 1.
  destruct (boosted_by_object cfg o (Dict.keys hyps) s1) as [[l0|e] s2] eqn:B;
    [|discriminate].
  munfold. intros [= <- <-]. exists o. split.
  - eapply rng_choice_val; eauto.
  - f_equal. eapply boosted_by_object_val; eauto.
Qed.

Lemma hypotheses_to_reward_frame g pm hyps s :
  same_tables s (snd (hypotheses_to_reward cfg g pm hyps s)).
Proof.
  unfold hypotheses_to_reward. munfold.
  destruct (match_ratio pm) as [q|]; simpl; [|apply same_tables_refl].
  destruct (matching_subgraph pm) as [sub|].
  - destruct (Qle_bool _ q && _); simpl.
    + apply same_tables_refl.
    + apply reward_random_object_frame.
  - apply reward_random_object_frame.
Qed.

(** The hypotheses marked for reward are the relaxed pattern alone, or a
    first pattern followed by keys of the table. *)
Lemma hypotheses_to_reward_val g pm hyps s l s' :
  hypotheses_to_reward cfg g pm hyps s = (Val l, s') ->
  exists p others, l = p :: others /\ incl others (Dict.keys hyps).
Proof.
  unfold hypotheses_to_reward. munfold.
  destruct (match_ratio pm) as [q|]; simpl; [|discriminate].
  assert (forall s0, reward_random_object cfg g hyps s0 = (Val l, s') ->
          exists p others, l = p :: others /\ incl others (Dict.keys hyps)) as R.
  { intros s0 R. apply reward_random_object_val in R.
    destruct R as (o & _ & ->). do 2 eexists. split; [reflexivity|].
    intros x I. apply filter_In in I. tauto. }
  destruct (matching_subgraph pm) as [sub|]; [|apply R].
  destruct (Qle_bool _ q && _); simpl; [|apply R].
  intros [= <- <-]. exists sub, []. split; [reflexivity|].
  intros x [].
Qed.

(** *** The reward loop *)

Lemma existsb_eqb_In (p : Pattern) l : existsb (eqb p) l = true <-> In p l.
Proof.
  rewrite existsb_exists. split.
  - intros (x & I & Ex). apply eqb_eq in Ex. now subst.
  - intros I. exists p. split; [assumption | apply eqb_refl].
Qed.

Lemma find_identical_some new cands e :
  _find_identical_hypothesis new cands = Some e ->
  In e cands /\ check_isomorphism new e = true.
Proof.
  induction cands as [|c r IH]; simpl; [discriminate|].
  destruct (check_isomorphism new c) eqn:I.
  - intros [= <-]. auto.
  - intros F. destruct (IH F). auto.
Qed.


Lemma resolve_present p hyps :
  Dict.mem p hyps = true -> resolve p hyps = p.
Proof. unfold resolve. now intros ->. Qed.

(** A hypothesis resolves to a key of the table or to itself. *)
Lemma resolve_cases p hyps :
  In (resolve p hyps) (Dict.keys hyps) \/ resolve p hyps = p.
Proof.
  unfold resolve. destruct (Dict.mem p hyps); [now right|].
  destruct (_find_identical_hypothesis p (Dict.keys hyps)) as [e|] eqn:F;
    [|now right].
  destruct (truthy (Some e)); [|now right].
  left. now apply find_identical_some in F.
Qed.


Lemma reward_loop_scores to_reward :
  forall hyps0 hyps boosted,
    (forall h, In h boosted ->
               Dict.get h hyps
               = Some (reinforce (learning_factor cfg) (score_in hyps0 h))) ->
    (forall h, ~ In h boosted -> Dict.get h hyps = Dict.get h hyps0) ->
    (forall h, In h (snd (reward_loop cfg to_reward hyps boosted)) ->
               Dict.get h (fst (reward_loop cfg to_reward hyps boosted))
               = Some (reinforce (learning_factor cfg) (score_in hyps0 h)))
    /\ (forall h, ~ In h (snd (reward_loop cfg to_reward hyps boosted)) ->
                  Dict.get h (fst (reward_loop cfg to_reward hyps boosted))
                  = Dict.get h hyps0).
Proof.
  induction to_reward as [|p r IH]; intros hyps0 hyps boosted B NB; simpl.
  - auto.
  - set (obj := resolve p hyps).
    destruct (existsb (eqb obj) boosted) eqn:X.
    + apply IH; assumption.
    + assert (~ In obj boosted) as NI.
      { intros I. apply existsb_eqb_In in I. congruence. }
      apply IH.
      * intros h [<-|I].
        -- rewrite get_set_same. unfold score_in. now rewrite (NB _ NI).
        -- rewrite get_set_other; [auto|]. intros ->. contradiction.
      * intros h N. rewrite get_set_other.
        -- apply NB. intros I. apply N. now right.
        -- intros ->. apply N. now left.
Qed.

Lemma In_boosted_dec (h : Pattern) l : In h l \/ ~ In h l.
Proof.
  destruct (existsb (eqb h) l) eqn:X.
  - left. now apply existsb_eqb_In.
  - right. intros I. apply existsb_eqb_In in I. congruence.
Qed.

Lemma reward_loop_at_most_once to_reward hyps :
  rewarded_at_most_once (learning_factor cfg) hyps
    (fst (reward_loop cfg to_reward hyps [])).
Proof.
  destruct (@reward_loop_scores to_reward hyps hyps []) as [B NB].
  - intros h [].
  - reflexivity.
  - intros h.
    destruct (In_boosted_dec h (snd (reward_loop cfg to_reward hyps []))).
    + right. auto.
    + left. auto.
Qed.


(** Rewarding keys of the table adds no key. *)
Lemma reward_loop_keys_present to_reward :
  forall hyps boosted,
    incl to_reward (Dict.keys hyps) ->
    Dict.keys (fst (reward_loop cfg to_reward hyps boosted)) = Dict.keys hyps.
Proof.
  induction to_reward as [|p r IH]; intros hyps boosted I; simpl; [reflexivity|].
  assert (Dict.mem p hyps = true) as Mp by (apply mem_keys, I; now left).
  assert (incl r (Dict.keys hyps)) as Ir by (intros x Ix; apply I; now right).
  rewrite (resolve_present _ _ Mp).
  destruct (existsb _ boosted); [now apply IH|].
  rewrite IH; rewrite keys_set_present; auto.
Qed.


(** *** [learning_step], unfolded *)

Lemma with_table_ext f g (s : State) :
  f (table s) = g (table s) -> with_table f s = with_table g s.
Proof. unfold with_table. now intros ->. Qed.

Lemma update_hypotheses_eq word f hyps (s : State) :
  Dict.get word (table s) = Some hyps ->
  update_hypotheses word f s = (Val tt, with_table (Dict.set word (f hyps)) s).
Proof.
  intros G. unfold update_hypotheses, modify. f_equal.
  apply with_table_ext. now rewrite G.
Qed.

(** An exact match without a (truthy) matching subgraph can only be the
    match of an empty pattern, whose ratio is a division by zero. *)
Lemma exact_without_subgraph pattern g :
  matched_exactly (partial_match_of pattern g) = true ->
  truthy (matching_subgraph (partial_match_of pattern g)) = false ->
  match_ratio (partial_match_of pattern g) = None.
Proof.
  unfold matched_exactly, match_ratio, partial_match_of.
  cbn [matching_subgraph num_nodes_matched num_nodes_in_pattern].
  destruct (get_largest_matching_pattern pattern g) as [p|].
  - intros Ex T. rewrite T in Ex. apply Nat.eqb_eq in Ex.
    rewrite <- Ex. reflexivity.
  - intros Ex _. apply Nat.eqb_eq in Ex. rewrite <- Ex. reflexivity.
Qed.

Lemma learning_step_eq word g (s : State) (hyps : hypotheses) lead :
  Dict.get word (table s) = Some hyps ->
  py_max (score_in hyps) (Dict.keys hyps) = Some lead ->
  let pm := partial_match_of lead g in
  let old := score_in hyps lead in
  let s1 := incr_debug_counter (incr_debug_counter s) in
  learning_step cfg word g s =
  if matched_exactly pm && truthy (matching_subgraph pm)
  then (Val true,
        with_table
          (Dict.set (V:=hypotheses) word
             (Dict.set lead (reinforce (learning_factor cfg) old) hyps))
          s1)
  else
    let pen : hypotheses :=
      Dict.set lead (penalize (learning_factor cfg) old) hyps in
    match hypotheses_to_reward cfg g pm pen
            (with_table (Dict.set (V:=hypotheses) word pen) s1) with
    | (Val to_reward, s3) =>
        (Val false,
         with_table
           (Dict.set (V:=hypotheses) word
              (fst (reward_loop cfg to_reward pen []))) s3)
    | (Raise e, s3) => (Raise e, s3)
    end.
Proof.
  intros G Mx pm old s1. unfold learning_step.
  unfold bind at 1. unfold gets at 1.
  unfold bind at 1. rewrite G. unfold lift_option at 1, ret at 1.
  unfold bind at 1. rewrite Mx. unfold lift_option at 1, ret at 1.
  unfold bind at 1, modify at 1.
  unfold bind at 1, _compute_match_ratio, bind at 1, modify at 1, ret at 1.
  fold pm old s1.
  destruct (matched_exactly pm && truthy (matching_subgraph pm)) eqn:C.
  - apply andb_true_iff in C. destruct C as [C _]. rewrite C.
    unfold bind. rewrite (@update_hypotheses_eq word _ hyps s1 G).
    reflexivity.
  - unfold bind at 1. rewrite (@update_hypotheses_eq word _ hyps s1 G).
    unfold bind at 1. cbv beta zeta.
    match goal with
    | |- context [hypotheses_to_reward cfg g pm ?p _] => set (pen := p)
    end.
    match goal with
    | |- context [hypotheses_to_reward cfg g pm pen ?st] => set (s2 := st)
    end.
    pose proof (hypotheses_to_reward_frame g pm pen s2) as F.
    destruct (hypotheses_to_reward cfg g pm pen s2) as [[l|e] s3] eqn:R;
      [|reflexivity].
    destruct F as (Ft & _). simpl in Ft.
    assert (Dict.get word (table s3) = Some pen) as G3.
    { rewrite Ft. apply get_set_same. }
    unfold bind. rewrite (@update_hypotheses_eq word _ pen s3 G3).
    unfold ret. f_equal. f_equal.
    destruct (matched_exactly pm) eqn:Ex; [|reflexivity].
    simpl in C. exfalso.
    unfold hypotheses_to_reward in R. unfold bind at 1 in R.
    assert (match_ratio pm = None) as Z
      by exact (exact_without_subgraph _ _ Ex C).
    rewrite Z in R. discriminate.
Qed.

Lemma max_by_In {A} (key : A -> Q) l :
  forall best, In (max_by key best l) (best :: l).
Proof.
  induction l as [|x r IH]; intros best; simpl; [now left|].
  destruct (IH (if Qltb (key best) (key x) then x else best)) as [Eq|I].
  - rewrite <- Eq. destruct (Qltb (key best) (key x)); auto.
  - auto.
Qed.

Lemma py_max_In {A} (key : A -> Q) l x : py_max key l = Some x -> In x l.
Proof.
  destruct l as [|b r]; simpl; [discriminate|].
  intros [= <-]. apply max_by_In.
Qed.

Lemma py_max_none {A} (key : A -> Q) l : py_max key l = None -> l = [].
Proof. destruct l; [reflexivity | discriminate]. Qed.




(** C4. Whatever list of hypotheses is marked for reward, every score
    the reward loop leaves is the score it found or that score (0 for a
    new key) rewarded exactly once; and so for a whole [learning_step]:
    against the table as it was (confirmation) or as it was with the
    leading hypothesis penalised (disconfirmation), every object's score
    is unchanged or rewarded once -- never twice. *)
Theorem learning_step_rewards_at_most_once
    word g (s : State) (hyps : hypotheses) lead (to_reward : list Pattern) :
  Dict.get word (table s) = Some hyps ->
  py_max (score_in hyps) (Dict.keys hyps) = Some lead ->
  let gamma := learning_factor cfg in
  rewarded_at_most_once gamma hyps (fst (reward_loop cfg to_reward hyps []))
  /\ exists base hyps',
       Dict.get word (table (snd (learning_step cfg word g s))) = Some hyps'
       /\ (base = hyps
           \/ base = Dict.set lead (penalize gamma (score_in hyps lead)) hyps)
       /\ rewarded_at_most_once gamma base hyps'.
Proof.
  intros G Mx gamma. split; [apply reward_loop_at_most_once|].
  rewrite (learning_step_eq word g s G Mx). fold gamma.
  destruct (matched_exactly _ && truthy _).
  - exists hyps. eexists. simpl. split; [apply get_set_same|].
    split; [now left|]. intros h.
    destruct (eqb lead h) eqn:Eh.
    + apply eqb_eq in Eh. subst h. right. now rewrite get_set_same.
    + left. apply get_set_other. now apply eqb_neq.
  - cbv zeta.
    set (pen := Dict.set lead (penalize gamma (score_in hyps lead)) hyps).
    match goal with
    | |- context [hypotheses_to_reward cfg g ?pm pen ?st] =>
        pose proof (hypotheses_to_reward_frame g pm pen st) as F;
        destruct (hypotheses_to_reward cfg g pm pen st) as [[l|e] s3]
    end; simpl.
    + exists pen. eexists. split; [apply get_set_same|].
      split; [now right|]. apply reward_loop_at_most_once.
    + exists pen, pen. destruct F as (Ft & _). simpl in Ft.
      split; [rewrite Ft; apply get_set_same|].
      split; [now right|]. intros h. now left.
Qed.




(** *** [initialization_step] *)

Lemma max_by_ge {A} (key : A -> Q) l :
  forall best,
    key best <= key (max_by key best l)
    /\ forall y, In y l -> key y <= key (max_by key best l).
Proof.
  induction l as [|x r IH]; intros best; simpl.
  - split; [apply Qle_refl | contradiction].
  - destruct (IH (if Qltb (key best) (key x) then x else best)) as [B R].
    destruct (Qltb (key best) (key x)) eqn:L.
    + apply Qltb_lt in L. split.
      * apply Qlt_le_weak. eapply Qlt_le_trans; eauto.
      * intros y [<-|I]; auto.
    + apply Qltb_ge in L. split; [assumption|].
      intros y [<-|I]; [|auto]. eapply Qle_trans; eauto.
Qed.

Lemma In_association_scores tbl meaning sc :
  In sc (association_scores tbl meaning) <->
  exists w hs h, In (w, hs) tbl /\ In (h, sc) hs
                 /\ check_isomorphism h meaning = true.
Proof.
  unfold association_scores. rewrite in_flat_map. split.
  - intros ([w hs] & I & M). simpl in M. apply in_map_iff in M.
    destruct M as ([h sc'] & Es & F). simpl in Es. subst sc'.
    apply filter_In in F. destruct F as [F C]. exists w, hs, h. auto.
  - intros (w & hs & h & I & J & C). exists (w, hs). split; [assumption|].
    simpl. apply in_map_iff. exists (h, sc). split; [reflexivity|].
    apply filter_In. auto.
Qed.

(** The association of a meaning: an upper bound of the scores of all
    stored hypotheses isomorphic to it, never below 0, and either 0 or one
    of those scores. *)
Lemma max_association_score_spec tbl meaning :
  let a := max_association_score tbl meaning in
  0 <= a
  /\ (forall sc, In sc (association_scores tbl meaning) -> sc <= a)
  /\ (a = 0 \/ In a (association_scores tbl meaning)).
Proof.
  unfold max_association_score.
  destruct (association_scores tbl meaning ++ [0]) as [|x r] eqn:L.
  - destruct (association_scores tbl meaning); discriminate.
  - simpl. destruct (max_by_ge (fun s => s) r x) as [B R].
    assert (forall y, In y (association_scores tbl meaning ++ [0]) ->
                      y <= max_by (fun s => s) x r) as U.
    { rewrite L. intros y [<-|I]; auto. }
    split; [apply U, in_or_app; right; now left|].
    split; [intros sc I; apply U, in_or_app; now left|].
    pose proof (max_by_In (fun s => s) r x) as I. rewrite <- L in I.
    apply in_app_or in I. destruct I as [I|[I|[]]]; auto.
Qed.

Lemma select_meaning_some tbl ms :
  forall p0 a,
    let r := select_meaning tbl ms p0 (Some a) in
    let A := max_association_score tbl in
    (fst r = p0 /\ forall m, In m ms -> a <= A m)
    \/ (exists i, nth_error ms i = Some (fst r)
                  /\ A (fst r) < a
                  /\ (forall m, In m ms -> A (fst r) <= A m)
                  /\ (forall j m, (j < i)%nat -> nth_error ms j = Some m ->
                                  A (fst r) < A m)).
Proof.
  induction ms as [|m ms IH]; intros p0 a; simpl.
  - left. split; [reflexivity | contradiction].
  - destruct (Qltb (max_association_score tbl m) a) eqn:L.
    + apply Qltb_lt in L. right.
      destruct (IH m (max_association_score tbl m))
        as [[Er Hm]|(i & Hn & Hl & Hm & Hj)].
      * exists 0%nat. rewrite Er. simpl. split; [reflexivity|].
        split; [assumption|]. split.
        -- intros m' [<-|I]; [apply Qle_refl | auto].
        -- intros j m' Hlt. lia.
      * exists (S i). simpl. split; [assumption|].
        split; [eapply Qlt_trans; eauto|]. split.
        -- intros m' [<-|I]; [now apply Qlt_le_weak | auto].
        -- intros [|j] m' Hlt; simpl.
           ++ now intros [= <-].
           ++ apply Hj. lia.
    + apply Qltb_ge in L.
      destruct (IH p0 a) as [[Er Hm]|(i & Hn & Hl & Hm & Hj)].
      * left. split; [assumption|]. intros m' [<-|I]; auto.
      * right. exists (S i). simpl. split; [assumption|].
        split; [assumption|]. split.
        -- intros m' [<-|I]; [|auto].
           apply Qlt_le_weak. eapply Qlt_le_trans; eauto.
        -- intros [|j] m' Hlt; simpl.
           ++ intros [= <-]. eapply Qlt_le_trans; eauto.
           ++ apply Hj. lia.
Qed.

(** C10. On the first sighting of [word] (it has no table entry) in a
    scene with at least one candidate object, the step returns normally.
    The association of a candidate pattern is the largest score held, in
    the tables of the other words, by a hypothesis isomorphic to it, and 0
    when there is none (it is never below 0).  The pattern chosen is a
    candidate whose association is least, the first such in iteration
    order, and the word's entry becomes the one-key table that maps it to
    the learning factor. *)
Theorem initialization_step_picks_least_associated
    word g (s : State) :
  let meanings := map from_graph (get_objects_from_perception g) in
  let A := max_association_score (table s) in
  meanings <> [] ->
  Dict.get word (table s) = None ->
  (forall m,
      0 <= A m
      /\ (forall w hs h sc,
             In (w, hs) (table s) -> In (h, sc) hs ->
             check_isomorphism h m = true -> w <> word /\ sc <= A m)
      /\ (A m = 0
          \/ exists w hs h,
               w <> word /\ In (w, hs) (table s) /\ In (h, A m) hs
               /\ check_isomorphism h m = true))
  /\ exists i chosen,
       nth_error meanings i = Some chosen
       /\ (forall m, In m meanings -> A chosen <= A m)
       /\ (forall j m, (j < i)%nat -> nth_error meanings j = Some m ->
                       A chosen < A m)
       /\ initialization_step cfg word g s
          = (Val tt,
             with_table
               (fun t => t ++ [(word, [(chosen, learning_factor cfg)])]) s)
       /\ Dict.get word (table (snd (initialization_step cfg word g s)))
          = Some [(chosen, learning_factor cfg)].
Proof.
  intros meanings A Ne G.
  assert (forall w hs, In (w, hs) (table s) -> w <> word) as Other.
  { intros w hs I ->. destruct (In_get _ _ _ I) as [v Gv]. congruence. }
  split.
  - intros m. destruct (max_association_score_spec (table s) m) as (P0 & U & C).
    fold (A m) in P0, U, C. split; [assumption|]. split.
    + intros w hs h sc I J Iso. split; [eauto|].
      apply U. apply In_association_scores. exists w, hs, h. auto.
    + destruct C as [C|C]; [now left|]. right.
      apply In_association_scores in C. destruct C as (w & hs & h & I & J & Iso).
      exists w, hs, h. repeat split; eauto.
  - unfold initialization_step. fold meanings.
    destruct meanings as [|m0 ms] eqn:Em; [contradiction|].
    unfold bind, lift_option, ret, gets, modify.
    change (hd_error (m0 :: ms)) with (Some m0). cbv iota beta.
    simpl select_meaning. fold A.
    destruct (select_meaning_some (table s) ms m0 (A m0))
      as [[Er Hm]|(i & Hn & Hl & Hm & Hj)].
    + exists 0%nat, m0. rewrite Er. simpl.
      split; [reflexivity|]. split.
      { intros m [<-|I]; [apply Qle_refl | auto]. }
      split; [intros j m Hlt; lia|].
      split; [|apply get_set_same].
      f_equal. apply with_table_ext. now apply set_absent.
    + exists (S i). eexists. simpl. split; [exact Hn|]. split.
      { intros m [<-|I]; [now apply Qlt_le_weak | auto]. }
      split.
      { intros [|j] m Hlt; simpl; [now intros [= <-] | apply Hj; lia]. }
      split; [|apply get_set_same].
      f_equal. apply with_table_ext. now apply set_absent.
Qed.

(** *** [lexicon_step] *)

Lemma lexicon_step_eq word (s : State) (hyps : hypotheses) lead_p lead_s P n :
  Dict.get word (table s) = Some hyps ->
  leading_of hyps = Some (lead_p, lead_s) ->
  probability_of_meaning_given_word cfg lead_s hyps = Some P ->
  Dict.get word (counts s) = Some n ->
  lexicon_step cfg word s =
  (Val tt,
   if Qltb (lexicon_entry_threshold cfg) P && Nat.ltb 5 n
   then with_table (Dict.pop word)
          (with_lexicon (Dict.set word lead_p) s)
   else s).
Proof.
  intros G L Pr C. unfold lexicon_step.
  unfold bind at 1, gets at 1, _leading_hypothesis_for. rewrite G, L.
  unfold bind at 1, lift_option at 1, ret at 1.
  unfold bind at 1, gets at 1.
  unfold bind at 1. rewrite G. unfold lift_option at 1, ret at 1.
  unfold bind at 1. rewrite Pr. unfold lift_option at 1, ret at 1.
  unfold bind at 1, gets at 1.
  unfold bind at 1. rewrite C. unfold lift_option at 1, ret at 1.
  destruct (Qltb (lexicon_entry_threshold cfg) P); simpl; [|reflexivity].
  destruct (Nat.ltb 5 n); reflexivity.
Qed.

(** [lexicon_step] leaves the state alone or files the word. *)
Lemma lexicon_step_cases word (s : State) :
  snd (lexicon_step cfg word s) = s
  \/ exists p n,
       snd (lexicon_step cfg word s)
       = with_table (Dict.pop word) (with_lexicon (Dict.set word p) s)
       /\ Dict.get word (counts s) = Some n /\ (5 < n)%nat.
Proof.
  unfold lexicon_step, bind, gets, lift_option, ret, raise, modify. cbv beta.
  destruct (_leading_hypothesis_for word s) as [[lp ls]|]; [|now left].
  destruct (Dict.get word (table s)) as [hyps|]; [|now left].
  destruct (probability_of_meaning_given_word cfg ls hyps) as [P|]; [|now left].
  destruct (Dict.get word (counts s)) as [n|] eqn:C; [|now left].
  destruct (Qltb (lexicon_entry_threshold cfg) P); [|now left].
  destruct (Nat.ltb_spec 5 n); [|now left].
  right. exists lp, n. split; [reflexivity|]. split; [reflexivity | assumption].
Qed.

(** *** What each step does to the lexicon invariant *)

Lemma mem_set_present {V} (word w : string) (v : V) t :
  Dict.mem word t = true -> Dict.mem w (Dict.set word v t) = Dict.mem w t.
Proof.
  intros M. rewrite mem_set. destruct (eqb w word) eqn:Ew; [|reflexivity].
  apply eqb_eq in Ew. subst. now rewrite M.
Qed.

Lemma learning_step_frame word g (s : State) :
  let s' := snd (learning_step cfg word g s) in
  lexicon s' = lexicon s /\ counts s' = counts s
  /\ forall w, Dict.mem w (table s') = Dict.mem w (table s).
Proof.
  destruct (Dict.get word (table s)) as [hyps|] eqn:G.
  - assert (Dict.mem word (table s) = true) as M
      by (unfold Dict.mem; now rewrite G).
    destruct (py_max (score_in hyps) (Dict.keys hyps)) as [lead|] eqn:Mx.
    + rewrite (learning_step_eq word g s G Mx).
      destruct (matched_exactly _ && truthy _).
      * simpl. repeat split. intros w. now apply mem_set_present.
      * cbv zeta.
        match goal with
        | |- context [hypotheses_to_reward cfg g ?pm ?pen ?st] =>
            pose proof (hypotheses_to_reward_frame g pm pen st) as F;
            destruct (hypotheses_to_reward cfg g pm pen st) as [[l|e] s3]
        end; destruct F as (Ft & Fl & Fc & _); simpl in *.
        -- rewrite Fl, Fc, Ft. repeat split. intros w.
           rewrite mem_set_present; [now apply mem_set_present|].
           now rewrite mem_set, eqb_refl.
        -- rewrite Fl, Fc, Ft. repeat split. intros w.
           now apply mem_set_present.
    + unfold learning_step, bind, gets, lift_option, ret, raise. cbv beta.
      rewrite G, Mx. simpl. auto.
  - unfold learning_step, bind, gets, lift_option, ret, raise. cbv beta.
    rewrite G. simpl. auto.
Qed.

Lemma initialization_step_cases word g (s : State) :
  snd (initialization_step cfg word g s) = s
  \/ exists h, snd (initialization_step cfg word g s)
               = with_table (Dict.set word h) s.
Proof.
  unfold initialization_step, bind, gets, lift_option, ret, raise, modify.
  cbv beta.
  destruct (hd_error (map from_graph (get_objects_from_perception g)));
    simpl; eauto.
Qed.

Lemma inv_count_observation word (s : State) :
  lexicon_invariant s ->
  lexicon_invariant (snd (count_observation word s)).
Proof.
  unfold lexicon_invariant, count_observation, modify. simpl.
  intros I w M. destruct (I w M) as (T & n & C & L). split; [assumption|].
  destruct (eqb word w) eqn:Ew.
  - apply eqb_eq in Ew. subst w. rewrite C. rewrite get_set_same.
    exists (n + 1)%nat. split; [reflexivity | lia].
  - apply eqb_neq in Ew. exists n. split; [|assumption].
    destruct (Dict.get word (counts s)); now rewrite get_set_other.
Qed.

Lemma inv_initialization_step word g (s : State) :
  Dict.mem word (lexicon s) = false ->
  lexicon_invariant s ->
  lexicon_invariant (snd (initialization_step cfg word g s)).
Proof.
  intros Nl I. destruct (initialization_step_cases word g s) as [->|[h ->]];
    [assumption|].
  intros w M. simpl in *. destruct (I w M) as (T & C). split; [|assumption].
  rewrite mem_set, T. destruct (eqb w word) eqn:Ew; [|reflexivity].
  apply eqb_eq in Ew. subst. congruence.
Qed.

Lemma inv_learning_step word g (s : State) :
  lexicon_invariant s -> lexicon_invariant (snd (learning_step cfg word g s)).
Proof.
  intros I w. destruct (learning_step_frame word g s) as (Fl & Fc & Ft).
  rewrite Fl, Fc, Ft. apply I.
Qed.

Lemma inv_lexicon_step word (s : State) :
  lexicon_invariant s -> lexicon_invariant (snd (lexicon_step cfg word s)).
Proof.
  intros I. destruct (lexicon_step_cases word s) as [->|(p & n & -> & C & L)];
    [assumption|].
  intros w. simpl. rewrite mem_set, mem_pop.
  destruct (eqb w word) eqn:Ew.
  - apply eqb_eq in Ew. subst w. intros _. rewrite eqb_refl. simpl.
    split; [reflexivity|]. exists n. split; [assumption | lia].
  - simpl. intros M. destruct (I w M) as (T & Cn). rewrite T.
    split; [apply andb_false_r | assumption].
Qed.

Lemma inv_learn_word g word (s : State) :
  lexicon_invariant s -> lexicon_invariant (snd (learn_word cfg g word s)).
Proof.
  intros I. unfold learn_word.
  destruct (String.eqb word "a" || String.eqb word "the"); [exact I|].
  pose proof (inv_count_observation word I) as I1.
  unfold bind, gets. unfold count_observation at 1, modify at 1.
  unfold count_observation, modify in I1. simpl snd in I1.
  cbv beta iota.
  match goal with
  | |- context [negb (Dict.mem word (lexicon ?st))] =>
      set (s1 := st) in *; destruct (Dict.mem word (lexicon s1)) eqn:Ml
  end; cbv beta iota delta [negb]; [exact I1|].
  match goal with
  | |- context [if ?c then false else true] => destruct c
  end; cbv beta iota.
  - pose proof (inv_learning_step word g I1) as I2.
    destruct (learning_step cfg word g s1) as [[[|]|e] s2]; simpl in I2 |- *;
      [now apply inv_lexicon_step | exact I2 | exact I2].
  - now apply inv_initialization_step.
Qed.

Lemma inv_learn_with_pursuit g words :
  forall s : State,
    lexicon_invariant s ->
    lexicon_invariant (snd (learn_with_pursuit cfg g words s)).
Proof.
  unfold learn_with_pursuit.
  induction words as [|w r IH]; intros s I; simpl; [exact I|].
  unfold bind. pose proof (inv_learn_word g w I) as I1.
  destruct (learn_word cfg g w s) as [[u|e] s1]; simpl in I1 |- *;
    [now apply IH | exact I1].
Qed.

Lemma inv_observe ex (s : State) :
  lexicon_invariant s -> lexicon_invariant (snd (observe cfg ex s)).
Proof.
  intros I. unfold observe, bind, modify at 1.
  assert (lexicon_invariant (incr_observation_num s)) as I1 by exact I.
  destruct (single_frame_graph _ (perception_frames ex)) as [g|e].
  - now apply inv_learn_with_pursuit.
  - exact I1.
Qed.

(** *** [observe] on a perception it cannot handle *)

(** C8, as the code has it.  When the perception does not consist of
    exactly one [DevelopmentalPrimitivePerceptionFrame], [observe] raises
    a [RuntimeError]; the hypothesis table, the lexicon, the per-word
    observation counts, the random generator and the debug counter are
    what they were, and the learner's running observation number -- which
    is incremented before the frames are checked -- is one more than it
    was. *)
Theorem observe_rejects_unsupported_perception ex (s : State) :
  (forall g, perception_frames ex <> [DevelopmentalPrimitivePerceptionFrame g]) ->
  let s' := snd (observe cfg ex s) in
  (exists msg, fst (observe cfg ex s) = Raise (RuntimeError msg))
  /\ s' = incr_observation_num s
  /\ table s' = table s
  /\ lexicon s' = lexicon s
  /\ counts s' = counts s
  /\ rng s' = rng s
  /\ debug_counter s' = debug_counter s
  /\ observation_num s' = S (observation_num s).
Proof.
  intros Bad. unfold observe, bind, modify at 1.
  destruct (perception_frames ex) as [|[g|] [|f2 r]] eqn:Fr; simpl;
    try (split; [eexists; reflexivity | repeat split]).
  exfalso. now apply (Bad g).
Qed.

(** *** [describe] *)

Lemma In_describe_lexicon g lex x :
  In x (describe_lexicon g lex) <->
  exists w p, In (w, p) lex /\ has_match p g = true
              /\ x = (["a"%string; w], 1).
Proof.
  unfold describe_lexicon. rewrite in_flat_map. split.
  - intros ([w p] & I & X). simpl in X.
    destruct (has_match p g) eqn:Hm; [|contradiction].
    destruct X as [<-|[]]. exists w, p. auto.
  - intros (w & p & I & Hm & ->). exists (w, p). split; [assumption|].
    simpl. rewrite Hm. now left.
Qed.

Lemma In_describe_hypotheses g (s : State) x :
  In x (describe_hypotheses g s) <->
  exists w h score,
    In w (Dict.keys (table s))
    /\ _leading_hypothesis_for w s = Some (h, score)
    /\ has_match h g = true
    /\ x = (["a"%string; w], score).
Proof.
  unfold describe_hypotheses. rewrite in_flat_map. split.
  - intros (w & I & X).
    destruct (_leading_hypothesis_for w s) as [[h sc]|] eqn:L; [|contradiction].
    destruct (has_match h g) eqn:Hm; [|contradiction].
    destruct X as [<-|[]]. exists w, h, sc. auto.
  - intros (w & h & sc & I & L & Hm & ->). exists w. split; [assumption|].
    rewrite L, Hm. now left.
Qed.


End LearnerFacts.

(** ** Runs of the learner *)

Section Runs.
Context {Pattern Graph Rng : Type} `{EqDec Pattern}.
Variable cfg : Params.

Local Abbreviation State := (State (Pattern:=Pattern) (Rng:=Rng)).
Local Abbreviation table := words_to_hypotheses_and_scores.
Local Abbreviation counts := words_to_number_of_observations.

Lemma reachable_invariant (s : State) :
  reachable (Graph:=Graph) cfg s -> lexicon_invariant s.
Proof.
  induction 1 as [r|E ex s R IH].
  - intros w M. discriminate.
  - now apply inv_observe.
Qed.


(** C3. In every state a run reaches, no word is a key of both the
    hypothesis table and the lexicon -- also in the state a further
    [observe] call leaves, whether it returns or raises.  A
    [lexicon_step] either changes nothing or files the word and removes
    its table entry in the same step. *)
Theorem hypothesis_table_and_lexicon_disjoint
    {E : Environment Pattern Graph Rng}
    (s : State) (w : string) (ex : LearningExample) (s0 : State) :
  reachable (Graph:=Graph) cfg s ->
  ~ (Dict.mem w (table s) = true /\ Dict.mem w (lexicon s) = true)
  /\ ~ (Dict.mem w (table (snd (observe cfg ex s))) = true
        /\ Dict.mem w (lexicon (snd (observe cfg ex s))) = true)
  /\ (snd (lexicon_step cfg w s0) = s0
      \/ (Dict.mem w (lexicon (snd (lexicon_step cfg w s0))) = true
          /\ Dict.mem w (table (snd (lexicon_step cfg w s0))) = false)).
Proof.
  intros R.
  assert (forall s1 : State, lexicon_invariant s1 ->
            ~ (Dict.mem w (table s1) = true /\ Dict.mem w (lexicon s1) = true))
    as D.
  { intros s1 I [T L]. destruct (I w L) as [T' _]. congruence. }
  split; [apply D; now apply reachable_invariant|].
  split.
  - apply D. apply reachable_invariant. now apply reachable_observe.
  - destruct (lexicon_step_cases cfg w s0) as [U|(p & n & -> & _)];
      [now left|].
    right. simpl. rewrite mem_set, mem_pop, !eqb_refl. auto.
Qed.
End Runs.

(** ** The learner at work in the concrete worlds *)

Lemma reachable_observe_n n : reachable (Graph:=nat) toy_cfg (observe_n n).
Proof.
  induction n as [|n IH]; simpl.
  - apply reachable_init.
  - now apply reachable_observe.
Qed.

(** Six observations of "a ball" lexicalize "ball"; five do not. *)
Example observe_n_lexicalizes_at_six :
  lexicon (observe_n 5) = []
  /\ lexicon (observe_n 6) = [("ball"%string, 3%nat)]
  /\ words_to_hypotheses_and_scores (observe_n 6) = [].
Proof. vm_compute. repeat split. Qed.



Lemma disjointness_witness :
  ~ (Dict.mem "ball"%string (words_to_hypotheses_and_scores (observe_n 6)) = true
     /\ Dict.mem "ball"%string (lexicon (observe_n 6)) = true).
Proof.
  exact (proj1 (@hypothesis_table_and_lexicon_disjoint _ _ _ _ toy_cfg toy_env
                  (observe_n 6) "ball" ball_example (observe_n 6)
                  (reachable_observe_n 6))).
Defined.

Lemma rewards_at_most_once_witness :
  rewarded_at_most_once (1 # 2) [(1%nat, 1 # 2)]
    (fst (reward_loop (E:=split_env) toy_cfg [108%nat; 1%nat; 108%nat; 1%nat]
            [(1%nat, 1 # 2)] [])).
Proof.
  exact (proj1 (@learning_step_rewards_at_most_once _ _ _ _ split_env toy_cfg
                  "ball" 7%nat split_state [(1%nat, 1 # 2)] 1%nat
                  [108%nat; 1%nat; 108%nat; 1%nat] eq_refl eq_refl)).
Defined.


Lemma unsupported_perception_witness :
  (exists msg,
      fst (observe (E:=toy_env) toy_cfg two_frame_example (observe_n 2))
      = Raise (RuntimeError msg))
  /\ snd (observe (E:=toy_env) toy_cfg two_frame_example (observe_n 2))
     = incr_observation_num (observe_n 2).
Proof.
  destruct (@observe_rejects_unsupported_perception _ _ _ _ toy_env toy_cfg
              two_frame_example (observe_n 2)) as (R & S & _).
  - intros g. discriminate.
  - split; assumption.
Defined.

(** C8 as stated fails: a rejected call has already counted itself. *)
Lemma observe_failure_is_not_a_no_op :
  ~ (forall (ex : LearningExample (Graph:=nat))
            (s : State (Pattern:=nat) (Rng:=unit)),
        (forall g, perception_frames ex
                   <> [DevelopmentalPrimitivePerceptionFrame g]) ->
        snd (observe (E:=toy_env) toy_cfg ex s) = s).
Proof.
  intros C.
  assert (snd (observe (E:=toy_env) toy_cfg two_frame_example (initial_state tt))
          = initial_state tt) as U.
  { apply C. intros g. discriminate. }
  vm_compute in U. discriminate.
Qed.


(** "cup", first seen in the scene [3] after "ball" has taken the pattern
    [3]: the second candidate, [4], is the least associated one. *)
Lemma initialization_witness :
  Dict.get "cup"%string
    (words_to_hypotheses_and_scores
       (snd (initialization_step (E:=toy_env) toy_cfg "cup" 3%nat (observe_n 1))))
  = Some [(4%nat, 1 # 2)].
Proof.
  destruct (@initialization_step_picks_least_associated _ _ _ toy_env toy_cfg
              "cup"%string 3%nat (observe_n 1))
    as (_ & i & chosen & N & Least & _ & _ & G).
  - vm_compute. discriminate.
  - vm_compute. reflexivity.
  - rewrite G. f_equal.
    assert (nth_error [3%nat; 4%nat] i = Some chosen) as N' by exact N.
    assert (max_association_score (E:=toy_env)
              (words_to_hypotheses_and_scores (observe_n 1)) 3%nat = 1 # 2) as A3
      by (vm_compute; reflexivity).
    assert (max_association_score (E:=toy_env)
              (words_to_hypotheses_and_scores (observe_n 1)) 4%nat = 0) as A4
      by (vm_compute; reflexivity).
    destruct i as [|[|[|i]]]; simpl in N'; try discriminate.
    + injection N' as <-. exfalso.
      assert (In 4%nat (map (from_graph (Environment:=toy_env))
                          (get_objects_from_perception (Environment:=toy_env) 3%nat)))
        as I4 by (right; now left).
      apply Least in I4. rewrite A3, A4 in I4. vm_compute in I4. now apply I4.
    + injection N' as <-. reflexivity.
Defined.



(** ** More about the steps: what they leave alone *)

Section StepFrames.
Context {Pattern Graph Rng : Type} `{EqDec Pattern}.
Context {E : Environment Pattern Graph Rng}.
Variable cfg : Params.

Local Abbreviation State := (State (Pattern:=Pattern) (Rng:=Rng)).
Local Abbreviation table := words_to_hypotheses_and_scores.
Local Abbreviation counts := words_to_number_of_observations.

Lemma set_set {K V} `{EqDec K} (k : K) (v v' : V) d :
  Dict.set k v' (Dict.set k v d) = Dict.set k v' d.
Proof.
  induction d as [|[k0 v0] r IH]; simpl.
  - now rewrite eqb_refl.
  - destruct (eqb k k0) eqn:Ek; simpl; rewrite Ek; [reflexivity|].
    now rewrite IH.
Qed.

Lemma In_set {K V} `{EqDec K} (k k' : K) (v v' : V) d :
  In (k', v') (Dict.set k v d) -> In (k', v') d \/ (k' = k /\ v' = v).
Proof.
  induction d as [|[k0 v0] r IH]; simpl.
  - intros [[= <- <-]|[]]. now right.
  - destruct (eqb k k0) eqn:Ek; simpl.
    + apply eqb_eq in Ek. subst k0. intros [[= <- <-]|I]; auto.
    + intros [Eq|I]; auto. destruct (IH I); auto.
Qed.

Lemma get_pop_other {K V} `{EqDec K} (k k' : K) (d : list (K * V)) :
  k <> k' -> Dict.get k' (Dict.pop k d) = Dict.get k' d.
Proof.
  intros N. unfold Dict.pop. induction d as [|[k0 v0] r IH]; simpl; [reflexivity|].
  destruct (eqb k k0) eqn:Ek; simpl.
  - apply eqb_eq in Ek. subst k0.
    assert (eqb k' k = false) as -> by (apply eqb_neq; congruence). exact IH.
  - destruct (eqb k' k0); [reflexivity | exact IH].
Qed.

Lemma set_not_nil {K V} `{EqDec K} (k : K) (v : V) d : Dict.set k v d <> [].
Proof.
  destruct d as [|[k0 v0] r]; simpl; [discriminate|].
  destruct (eqb k k0); discriminate.
Qed.

Lemma reward_loop_not_nil to_reward :
  forall (hyps : hypotheses) boosted,
    hyps <> [] -> fst (reward_loop cfg to_reward hyps boosted) <> [].
Proof.
  induction to_reward as [|p r IH]; intros hyps boosted N; simpl; [assumption|].
  destruct (existsb _ boosted); apply IH; [assumption | apply set_not_nil].
Qed.

(** The state a [learning_step] leaves: the state it found (a missing or
    empty entry), or that state with a new entry for the word -- the leading
    hypothesis reinforced, or the reward loop run on the entry with the
    leading hypothesis penalised -- and possibly one draw of the generator.
    The debug counter aside, nothing else changes. *)
Lemma learning_step_state word g (s : State) :
  let s' := snd (learning_step cfg word g s) in
  lexicon s' = lexicon s /\ counts s' = counts s
  /\ observation_num s' = observation_num s
  /\ (table s' = table s
      \/ exists hyps lead X,
           Dict.get word (table s) = Some hyps
           /\ py_max (score_in hyps) (Dict.keys hyps) = Some lead
           /\ table s' = Dict.set word X (table s)
           /\ (X = Dict.set lead
                     (reinforce (learning_factor cfg) (score_in hyps lead)) hyps
               \/ exists to_reward,
                    X = fst (reward_loop cfg to_reward
                               (Dict.set lead
                                  (penalize (learning_factor cfg)
                                     (score_in hyps lead)) hyps) []))).
Proof.
  destruct (Dict.get word (table s)) as [hyps|] eqn:G.
  - destruct (py_max (score_in hyps) (Dict.keys hyps)) as [lead|] eqn:Mx.
    + rewrite (learning_step_eq cfg word g s G Mx).
      destruct (matched_exactly _ && truthy _).
      * simpl. do 3 (split; [reflexivity|]). right. exists hyps, lead. eexists.
        split; [reflexivity|]. split; [exact Mx|]. split; [reflexivity|].
        now left.
      * cbv zeta.
        match goal with
        | |- context [hypotheses_to_reward cfg g ?pm ?pen ?st] =>
            pose proof (hypotheses_to_reward_frame cfg g pm pen st) as F;
            destruct (hypotheses_to_reward cfg g pm pen st) as [[l|e] s3]
        end; destruct F as (Ft & Fl & Fc & Fo); simpl in *.
        -- rewrite Fl, Fc, Fo, Ft. do 3 (split; [reflexivity|]). right.
           exists hyps, lead. eexists. rewrite set_set.
           split; [reflexivity|]. split; [exact Mx|]. split; [reflexivity|].
           right. now exists l.
        -- rewrite Fl, Fc, Fo, Ft. do 3 (split; [reflexivity|]). right.
           exists hyps, lead. eexists.
           split; [reflexivity|]. split; [exact Mx|]. split; [reflexivity|].
           right. now exists [].
    + unfold learning_step, bind, gets, lift_option, ret, raise. cbv beta.
      rewrite G, Mx. simpl. auto.
  - unfold learning_step, bind, gets, lift_option, ret, raise. cbv beta.
    rewrite G. simpl. auto.
Qed.

Lemma initialization_step_state word g (s : State) :
  snd (initialization_step cfg word g s) = s
  \/ exists p, snd (initialization_step cfg word g s)
               = with_table (Dict.set word [(p, learning_factor cfg)]) s.
Proof.
  unfold initialization_step, bind, gets, lift_option, ret, raise, modify.
  cbv beta.
  destruct (hd_error (map from_graph (get_objects_from_perception g)));
    simpl; eauto.
Qed.

(** *** Induction over the steps of an [observe] call

    A relation between states that every step respects -- counting a word,
    initializing it, updating it, filing it -- relates the state before a
    call with the state it leaves, whether it returns or raises.  [W] is
    what is known of the words of the description. *)

Variable R : State -> State -> Prop.
Variable W : string -> Prop.
Hypothesis R_refl : forall s, R s s.
Hypothesis R_trans : forall a b c, R a b -> R b c -> R a c.
Hypothesis R_count :
  forall w s, W w -> is_determiner w = false ->
              R s (snd (count_observation w s)).
Hypothesis R_init :
  forall w g s, W w -> is_determiner w = false ->
                Dict.mem w (counts s) = true ->
                Dict.mem w (lexicon s) = false ->
                Dict.mem w (table s) = false ->
                R s (snd (initialization_step cfg w g s)).
Hypothesis R_learn :
  forall w g s, W w -> is_determiner w = false ->
                Dict.mem w (counts s) = true ->
                Dict.mem w (lexicon s) = false ->
                Dict.mem w (table s) = true ->
                R s (snd (learning_step cfg w g s)).
Hypothesis R_lexicon :
  forall w s, W w -> is_determiner w = false ->
              Dict.mem w (counts s) = true ->
              Dict.mem w (lexicon s) = false ->
              Dict.mem w (table s) = true ->
              R s (snd (lexicon_step cfg w s)).

Lemma mem_counts_after_count word (s : State) :
  Dict.mem word (counts (snd (count_observation word s))) = true.
Proof.
  unfold count_observation, modify. simpl.
  destruct (Dict.get word (counts s)); now rewrite mem_set, eqb_refl.
Qed.

Lemma learn_word_steps g w (s : State) :
  W w -> R s (snd (learn_word cfg g w s)).
Proof.
  intros Ww. unfold learn_word. fold (is_determiner w).
  destruct (is_determiner w) eqn:D; [apply R_refl|].
  pose proof (R_count s Ww D) as R1.
  pose proof (mem_counts_after_count w s) as C1.
  unfold bind, gets. unfold count_observation at 1, modify at 1.
  unfold count_observation, modify in R1, C1. simpl snd in R1, C1.
  cbv beta iota.
  match goal with
  | |- context [negb (Dict.mem w (lexicon ?st))] =>
      set (s1 := st) in *; destruct (Dict.mem w (lexicon s1)) eqn:Ml
  end; cbv beta iota delta [negb]; [exact R1|].
  match goal with
  | |- context [if ?c then false else true] => destruct c eqn:Mt
  end; cbv beta iota.
  - pose proof (@R_learn w g s1 Ww D C1 Ml Mt) as R2.
    destruct (learning_step_frame cfg w g s1) as (Fl & Fc & Ft).
    destruct (learning_step cfg w g s1) as [[[|]|e] s2]; simpl in *;
      try (eapply R_trans; [exact R1 | exact R2]).
    eapply R_trans; [exact R1|]. eapply R_trans; [exact R2|].
    apply R_lexicon; try assumption.
    + rewrite Fc. exact C1.
    + rewrite Fl. exact Ml.
    + rewrite Ft. exact Mt.
  - eapply R_trans; [exact R1|]. now apply (@R_init w g s1).
Qed.

Lemma learn_with_pursuit_steps g words :
  forall s : State,
    (forall w, In w words -> W w) ->
    R s (snd (learn_with_pursuit cfg g words s)).
Proof.
  unfold learn_with_pursuit.
  induction words as [|w r IH]; intros s Ww; simpl; [apply R_refl|].
  unfold bind. pose proof (@learn_word_steps g w s (Ww w (or_introl eq_refl))) as R1.
  destruct (learn_word cfg g w s) as [[u|e] s1]; simpl in R1 |- *;
    [|exact R1].
  eapply R_trans; [exact R1|]. apply IH. intros w' I. apply Ww. now right.
Qed.

Hypothesis R_observation_num : forall s, R s (incr_observation_num s).

Lemma observe_steps ex (s : State) :
  (forall w, In w (linguistic_description ex) -> W w) ->
  R s (snd (observe cfg ex s)).
Proof.
  intros Ww. unfold observe, bind, modify at 1.
  destruct (single_frame_graph _ (perception_frames ex)) as [g|e].
  - eapply R_trans; [apply R_observation_num|].
    now apply learn_with_pursuit_steps.
  - apply R_observation_num.
Qed.
End StepFrames.

(** ** More about the helpers of the learner *)

Section Helpers.
Context {Pattern Graph Rng : Type} `{EqDec Pattern}.
Context {E : Environment Pattern Graph Rng}.
Variable cfg : Params.

Local Abbreviation State := (State (Pattern:=Pattern) (Rng:=Rng)).
Local Abbreviation table := words_to_hypotheses_and_scores.
Local Abbreviation counts := words_to_number_of_observations.

(** X1. [_find_identical_hypothesis] returns the first candidate, in iteration
    order, that the new hypothesis is isomorphic to: every candidate before
    it fails the test; and it returns [None] exactly when every candidate
    fails it. *)
Theorem find_identical_hypothesis_is_first new_hypothesis candidates :
  match _find_identical_hypothesis new_hypothesis candidates with
  | Some c =>
      exists before after,
        candidates = before ++ c :: after
        /\ check_isomorphism new_hypothesis c = true
        /\ forall x, In x before -> check_isomorphism new_hypothesis x = false
  | None =>
      forall x, In x candidates -> check_isomorphism new_hypothesis x = false
  end.
Proof.
  induction candidates as [|c r IH]; simpl.
  - intros x [].
  - destruct (check_isomorphism new_hypothesis c) eqn:I.
    + exists [], r. repeat split; [assumption | intros x []].
    + destruct (_find_identical_hypothesis new_hypothesis r) as [c'|].
      * destruct IH as (before & after & -> & I' & N).
        exists (c :: before), after. repeat split; [assumption|].
        intros x [<-|Ix]; auto.
      * intros x [<-|Ix]; auto.
  Qed.

Lemma max_by_first {A} (key : A -> Q) l :
  forall best,
    (max_by key best l = best /\ forall y, In y l -> key y <= key best)
    \/ exists before after,
         l = before ++ max_by key best l :: after
         /\ key best < key (max_by key best l)
         /\ (forall y, In y before -> key y < key (max_by key best l))
         /\ (forall y, In y l -> key y <= key (max_by key best l)).
Proof.
  induction l as [|x r IH]; intros best; simpl.
  - left. split; [reflexivity | contradiction].
  - destruct (Qltb (key best) (key x)) eqn:L.
    + apply Qltb_lt in L. right.
      destruct (IH x) as [[Eq Le]|(before & after & Eq & Lt & B & Le)].
      * exists [], r. rewrite Eq. simpl. split; [reflexivity|].
        split; [assumption|]. split; [contradiction|].
        intros y [<-|I]; [apply Qle_refl | auto].
      * exists (x :: before), after. simpl. split; [now rewrite <- Eq|].
        split; [eapply Qlt_trans; eauto|]. split.
        -- intros y [<-|I]; auto.
        -- intros y [<-|I]; [now apply Qlt_le_weak | auto].
    + apply Qltb_ge in L.
      destruct (IH best) as [[Eq Le]|(before & after & Eq & Lt & B & Le)].
      * left. split; [assumption|]. intros y [<-|I]; auto.
      * right. exists (x :: before), after. simpl.
        split; [now rewrite <- Eq|]. split; [assumption|]. split.
        -- intros y [<-|I]; [|auto]. eapply Qle_lt_trans; eauto.
        -- intros y [<-|I]; [|auto].
           apply Qlt_le_weak. eapply Qle_lt_trans; eauto.
Qed.

(** X2. [_leading_hypothesis_for] returns [None] exactly for a word without an
    entry or with an empty one; otherwise it returns an entry of the word's
    table whose score no other entry exceeds, and which every earlier entry
    is strictly below: the first of the best. *)
Theorem leading_hypothesis_is_first_maximum word (s : State) :
  match _leading_hypothesis_for word s with
  | None =>
      Dict.get word (table s) = None \/ Dict.get word (table s) = Some []
  | Some (p, sc) =>
      exists hyps before after,
        Dict.get word (table s) = Some hyps
        /\ hyps = before ++ (p, sc) :: after
        /\ (forall q sq, In (q, sq) hyps -> sq <= sc)
        /\ (forall q sq, In (q, sq) before -> sq < sc)
  end.
Proof.
  unfold _leading_hypothesis_for, leading_of.
  destruct (Dict.get word (table s)) as [hyps|]; [|now left].
  destruct hyps as [|[p0 s0] r]; simpl; [now right|].
  destruct (max_by_first (fun entry : Pattern * Q => snd entry) r (p0, s0))
    as [[Eq Le]|(before & after & Eq & Lt & B & Le)].
  - rewrite Eq. exists ((p0, s0) :: r), [], r. simpl.
    split; [reflexivity|]. split; [reflexivity|]. split; [|contradiction].
    intros q sq [[= <- <-]|I]; [apply Qle_refl | apply (Le (q, sq) I)].
  - destruct (max_by (fun entry : Pattern * Q => snd entry) (p0, s0) r)
      as [p sc] eqn:Mx. simpl in *.
    exists ((p0, s0) :: r), ((p0, s0) :: before), after.
    split; [reflexivity|]. split; [simpl; now rewrite <- Eq|]. split.
    + intros q sq [[= <- <-]|I]; [now apply Qlt_le_weak | apply (Le (q, sq) I)].
    + intros q sq [[= <- <-]|I]; [assumption | apply (B (q, sq) I)].
Qed.

Lemma inject_nat_pos n : n <> 0%nat -> 0 < inject_Z (Z.of_nat n).
Proof.
  intros N. change 0 with (inject_Z 0). rewrite <- Zlt_Qlt. lia.
Qed.

(** X3. A [PartialMatch]: the ratio is a [ZeroDivisionError] exactly for a
    pattern without nodes; otherwise it is never negative, it is 1 exactly
    when [matched_exactly] holds, and it is at most 1 when no more nodes are
    matched than the pattern has.  The match [_compute_match_ratio] builds
    counts no matched node when the engine returns no (or an empty) common
    subgraph, so its ratio is then 0. *)
Theorem partial_match_ratio (pm : PartialMatch (Pattern:=Pattern)) pattern g :
  (match_ratio pm = None <-> num_nodes_in_pattern pm = 0%nat)
  /\ (forall r,
        match_ratio pm = Some r ->
        0 <= r
        /\ (matched_exactly pm = true <-> r == 1)
        /\ ((num_nodes_matched pm <= num_nodes_in_pattern pm)%nat -> r <= 1))
  /\ (truthy (matching_subgraph (partial_match_of pattern g)) = false ->
      num_nodes_matched (partial_match_of pattern g) = 0%nat
      /\ forall r, match_ratio (partial_match_of pattern g) = Some r -> r == 0).
Proof.
  unfold match_ratio, matched_exactly. split; [|split].
  - destruct (Nat.eqb_spec (num_nodes_in_pattern pm) 0); split;
      try discriminate; try reflexivity; congruence.
  - intros r. destruct (Nat.eqb_spec (num_nodes_in_pattern pm) 0) as [|N];
      [discriminate|].
    intros [= <-]. pose proof (inject_nat_pos N) as P.
    assert (~ inject_Z (Z.of_nat (num_nodes_in_pattern pm)) == 0) as Nz.
    { intros Z. rewrite Z in P. now apply Qlt_irrefl in P. }
    split; [|split].
    + apply Qle_shift_div_l; [assumption|]. rewrite Qmult_0_l.
      change 0 with (inject_Z 0). rewrite <- Zle_Qle. lia.
    + rewrite Nat.eqb_eq. split.
      * intros ->. now apply Qmult_inv_r.
      * intros One.
        assert (inject_Z (Z.of_nat (num_nodes_matched pm))
                == inject_Z (Z.of_nat (num_nodes_in_pattern pm))) as Eq.
        { pose proof (Qmult_div_r (inject_Z (Z.of_nat (num_nodes_matched pm)))
                        (inject_Z (Z.of_nat (num_nodes_in_pattern pm))) Nz) as M.
          rewrite One, Qmult_1_r in M. symmetry. exact M. }
        apply Nat2Z.inj. now apply inject_Z_injective.
    + intros Le. apply Qle_shift_div_r; [assumption|]. rewrite Qmult_1_l.
      rewrite <- Zle_Qle. lia.
  - intros T.
    assert (num_nodes_matched (partial_match_of pattern g) = 0%nat) as Z.
    { unfold partial_match_of in *. simpl in *.
      destruct (get_largest_matching_pattern pattern g) as [p|]; [|reflexivity].
      simpl in T. now rewrite T. }
    split; [exact Z|]. intros r. rewrite Z.
    destruct (Nat.eqb _ 0); [discriminate|]. intros [= <-]. reflexivity.
Qed.

(** *** The posterior of [lexicon_step] *)

Lemma fold_plus_ge l :
  forall a, (forall x, In x l -> 0 <= x) -> a <= fold_left Qplus l a.
Proof.
  induction l as [|x r IH]; intros a P; simpl; [apply Qle_refl|].
  eapply Qle_trans; [|apply IH; intros y I; apply P; now right].
  assert (0 <= x) by (apply P; now left). lra.
Qed.

Lemma fold_plus_elem l :
  forall a x, (forall y, In y l -> 0 <= y) -> In x l ->
              a + x <= fold_left Qplus l a.
Proof.
  induction l as [|y r IH]; intros a x P I; simpl; [contradiction|].
  destruct I as [<-|I].
  - apply fold_plus_ge. intros z Iz. apply P. now right.
  - eapply Qle_trans; [|apply IH; [intros z Iz; apply P; now right | exact I]].
    assert (0 <= y) by (apply P; now left). lra.
Qed.

Lemma leading_probability_bounds
    (hyps : hypotheses) (lead_p : Pattern) lead_s :
  0 < smoothing_parameter cfg ->
  (forall p sc, In (p, sc) hyps -> 0 <= sc) ->
  leading_of hyps = Some (lead_p, lead_s) ->
  exists P,
    probability_of_meaning_given_word cfg lead_s hyps = Some P
    /\ 0 < P /\ P <= 1.
Proof.
  intros Lam Pos L. unfold probability_of_meaning_given_word.
  assert (In (lead_p, lead_s) hyps) as I by (eapply py_max_In; eauto).
  set (sum := py_sum (Dict.values hyps)).
  set (n := inject_Z (Z.of_nat (List.length hyps))).
  assert (forall x, In x (Dict.values hyps) -> 0 <= x) as Pv.
  { intros x Ix. apply in_map_iff in Ix. destruct Ix as ([p sc] & <- & Ip).
    eapply Pos; eauto. }
  assert (0 <= lead_s) as P0 by (eapply Pos; eauto).
  assert (lead_s <= sum) as Ls.
  { unfold sum, py_sum.
    assert (In lead_s (Dict.values hyps)) as Iv.
    { apply in_map_iff. now exists (lead_p, lead_s). }
    pose proof (fold_plus_elem (Dict.values hyps) 0 lead_s Pv Iv). lra. }
  assert (1 <= n) as N1.
  { unfold n. change 1 with (inject_Z 1). rewrite <- Zle_Qle.
    destruct hyps; [contradiction | simpl; lia]. }
  assert (lead_s + smoothing_parameter cfg <= sum + n * smoothing_parameter cfg)
    as Le by nra.
  assert (0 < sum + n * smoothing_parameter cfg) as Dp by nra.
  destruct (Qeq_bool (sum + n * smoothing_parameter cfg) 0) eqn:Z.
  - apply Qeq_bool_iff in Z. rewrite Z in Dp. now apply Qlt_irrefl in Dp.
  - eexists. split; [reflexivity|]. split.
    + apply Qlt_shift_div_l; [assumption|]. lra.
    + apply Qle_shift_div_r; [assumption|]. lra.
Qed.

(** X4. With scores that are not negative and a positive smoothing parameter,
    the value [lexicon_step] computes for the leading hypothesis is a
    probability: the division is defined, and the quotient lies in (0, 1]. *)
Theorem probability_of_leading_hypothesis_in_unit_interval
    (hyps : hypotheses) (lead_p : Pattern) lead_s :
  0 < smoothing_parameter cfg ->
  (forall p sc, In (p, sc) hyps -> 0 <= sc) ->
  leading_of hyps = Some (lead_p, lead_s) ->
  exists P,
    probability_of_meaning_given_word cfg lead_s hyps = Some P
    /\ 0 < P /\ P <= 1.
Proof. apply leading_probability_bounds. Qed.

(** X5. A word with a single hypothesis has posterior 1 whatever the score, so
    for a threshold below 1 only the number of observations decides:
    [lexicon_step] files the word when it has been seen more than 5 times
    and otherwise leaves the learner as it is. *)
Theorem single_hypothesis_lexicalized_on_count_alone
    word (s : State) (p : Pattern) sc n :
  Dict.get word (table s) = Some [(p, sc)] ->
  Dict.get word (counts s) = Some n ->
  ~ sc + smoothing_parameter cfg == 0 ->
  lexicon_entry_threshold cfg < 1 ->
  (exists P, probability_of_meaning_given_word cfg sc [(p, sc)] = Some P
             /\ P == 1)
  /\ lexicon_step cfg word s
     = (Val tt,
        if Nat.ltb 5 n
        then with_table (Dict.pop word) (with_lexicon (Dict.set word p) s)
        else s).
Proof.
  intros G C Nz Th.
  assert (exists P, probability_of_meaning_given_word cfg sc [(p, sc)] = Some P
                    /\ P == 1) as (P & Pr & One).
  { unfold probability_of_meaning_given_word, py_sum. simpl.
    assert (0 + sc + inject_Z 1 * smoothing_parameter cfg
            == sc + smoothing_parameter cfg) as D.
    { change (inject_Z 1) with 1. ring. }
    destruct (Qeq_bool _ 0) eqn:Z.
    - apply Qeq_bool_iff in Z. rewrite D in Z. contradiction.
    - eexists. split; [reflexivity|]. rewrite D. now apply Qmult_inv_r. }
  split; [eauto|].
  rewrite (lexicon_step_eq cfg word s G eq_refl Pr C).
  assert (Qltb (lexicon_entry_threshold cfg) P = true) as ->.
  { apply Qltb_lt. now rewrite One. }
  reflexivity.
Qed.
End Helpers.


(** ** Edge cases of the steps *)

Section Edges.
Context {Pattern Graph Rng : Type} `{EqDec Pattern}.
Context {E : Environment Pattern Graph Rng}.
Variable cfg : Params.

Local Abbreviation State := (State (Pattern:=Pattern) (Rng:=Rng)).
Local Abbreviation table := words_to_hypotheses_and_scores.
Local Abbreviation counts := words_to_number_of_observations.

Lemma learn_word_new_without_candidates g word (s : State) :
  is_determiner word = false ->
  Dict.mem word (lexicon s) = false ->
  Dict.mem word (table s) = false ->
  get_objects_from_perception g = [] ->
  learn_word cfg g word s = (Raise ValueError, snd (count_observation word s)).
Proof.
  intros D Ml Mt Ob. unfold learn_word. fold (is_determiner word). rewrite D.
  unfold bind, count_observation, modify, gets.
  cbn [lexicon table with_counts snd].
  match goal with
  | |- context [negb ?c] => replace c with false by (symmetry; exact Ml)
  end.
  cbv beta iota delta [negb]. cbn [table with_counts].
  match goal with
  | |- context [if ?c then false else true] =>
      replace c with false by (symmetry; exact Mt)
  end.
  cbv beta iota. unfold initialization_step. rewrite Ob. reflexivity.
Qed.

(** X19. A new word in a scene without candidate objects: [observe] raises the
    [ValueError] of [first(meanings)].  The call and the word have been
    counted by then, the word has no hypothesis, and the words after it in
    the description have not been looked at. *)
Theorem observe_new_word_without_candidate_objects
    g word rest (s : State) :
  is_determiner word = false ->
  Dict.mem word (lexicon s) = false ->
  Dict.mem word (table s) = false ->
  get_objects_from_perception g = [] ->
  let ex := {| perception_frames := [DevelopmentalPrimitivePerceptionFrame g];
               linguistic_description := word :: rest |} in
  observe cfg ex s
  = (Raise ValueError,
     snd (count_observation word (incr_observation_num s)))
  /\ count_of (snd (observe cfg ex s)) word = S (count_of s word)
  /\ table (snd (observe cfg ex s)) = table s
  /\ lexicon (snd (observe cfg ex s)) = lexicon s.
Proof.
  intros D Ml Mt Ob ex.
  assert (observe cfg ex s
          = (Raise ValueError,
             snd (count_observation word (incr_observation_num s)))) as Eq.
  { unfold observe, ex, learn_with_pursuit.
    cbn [perception_frames linguistic_description single_frame_graph for_each].
    unfold bind at 1, modify at 1. cbv beta iota. unfold bind at 1.
    rewrite (@learn_word_new_without_candidates g word
               (incr_observation_num s) D Ml Mt Ob).
    reflexivity. }
  rewrite Eq. split; [reflexivity|]. simpl. split; [|split; reflexivity].
  unfold count_of. simpl.
  destruct (Dict.get word (counts s)); rewrite get_set_same; lia.
Qed.

(** X20. An update for which the engine finds no common subgraph, in a scene
    without candidate objects: [learning_step] raises the [IndexError] of
    [rng.choice], and the leading hypothesis has already been penalised. *)
Theorem learning_step_without_candidate_objects
    word g (s : State) (hyps : hypotheses) lead :
  Dict.get word (table s) = Some hyps ->
  py_max (score_in hyps) (Dict.keys hyps) = Some lead ->
  pattern_len lead <> 0%nat ->
  get_largest_matching_pattern lead g = None ->
  get_objects_from_perception g = [] ->
  learning_step cfg word g s
  = (Raise IndexError,
     with_table
       (Dict.set (V:=hypotheses) word
          (Dict.set lead
             (penalize (learning_factor cfg) (score_in hyps lead)) hyps))
       (incr_debug_counter (incr_debug_counter s))).
Proof.
  intros G Mx Len No Ob.
  rewrite (learning_step_eq cfg word g s G Mx).
  assert (matching_subgraph (partial_match_of lead g) = None) as Sub
    by (unfold partial_match_of; now rewrite No).
  rewrite Sub. cbn [truthy]. rewrite andb_false_r. cbv zeta.
  unfold hypotheses_to_reward. rewrite Sub.
  unfold match_ratio. cbn [num_nodes_in_pattern partial_match_of].
  destruct (Nat.eqb_spec (pattern_len lead) 0) as [Z|_]; [congruence|].
  unfold bind at 1, lift_option, ret at 1.
  unfold reward_random_object. rewrite Ob. reflexivity.
Qed.

(** X21. A missing entry: [learning_step] raises [KeyError], [lexicon_step]
    fails its assertion, and neither changes anything. *)
Theorem steps_on_unknown_word word g (s : State) :
  Dict.get word (table s) = None ->
  learning_step cfg word g s = (Raise KeyError, s)
  /\ lexicon_step cfg word s = (Raise AssertionError, s).
Proof.
  intros G. split.
  - unfold learning_step, bind, gets, lift_option, raise. cbv beta.
    now rewrite G.
  - unfold lexicon_step, bind, gets, lift_option, raise, _leading_hypothesis_for.
    cbv beta. now rewrite G.
Qed.

Lemma reward_loop_keys_grow p others (hyps : hypotheses) :
  incl others (Dict.keys hyps) ->
  let keys' := Dict.keys (fst (reward_loop cfg (p :: others) hyps [])) in
  keys' = Dict.keys hyps
  \/ (keys' = Dict.keys hyps ++ [p] /\ ~ In p (Dict.keys hyps)).
Proof.
  intros I. simpl.
  destruct (Dict.mem (resolve p hyps) hyps) eqn:M.
  - left. rewrite reward_loop_keys_present.
    + now apply keys_set_present.
    + now rewrite keys_set_present.
  - assert (resolve p hyps = p) as R.
    { destruct (resolve_cases p hyps) as [Ik|R]; [|assumption].
      apply mem_keys in Ik. congruence. }
    rewrite R in *. right. split.
    + rewrite reward_loop_keys_present.
      * now apply keys_set_absent.
      * rewrite keys_set_absent by assumption.
        intros x Ix. apply in_or_app. left. auto.
    + intros Ik. apply mem_keys in Ik. congruence.
Qed.

(** X6. A [learning_step] never drops a hypothesis and never reorders the
    word's table: the keys afterwards are the keys before, in the same
    order, followed by at most one new key. *)
Theorem learning_step_adds_at_most_one_hypothesis
    word g (s : State) (hyps : hypotheses) :
  Dict.get word (table s) = Some hyps ->
  exists hyps',
    Dict.get word (table (snd (learning_step cfg word g s))) = Some hyps'
    /\ (Dict.keys hyps' = Dict.keys hyps
        \/ exists p, Dict.keys hyps' = Dict.keys hyps ++ [p]
                     /\ ~ In p (Dict.keys hyps)).
Proof.
  intros G.
  destruct (py_max (score_in hyps) (Dict.keys hyps)) as [lead|] eqn:Mx.
  - assert (Dict.mem lead hyps = true) as Ml.
    { apply mem_keys. eapply py_max_In; eauto. }
    rewrite (learning_step_eq cfg word g s G Mx).
    destruct (matched_exactly _ && truthy _).
    + eexists. simpl. split; [apply get_set_same|].
      left. now apply keys_set_present.
    + cbv zeta.
      set (pen := Dict.set lead
                    (penalize (learning_factor cfg) (score_in hyps lead)) hyps).
      assert (Dict.keys pen = Dict.keys hyps) as Kp
        by (now apply keys_set_present).
      match goal with
      | |- context [hypotheses_to_reward cfg g ?pm pen ?st] =>
          pose proof (hypotheses_to_reward_frame cfg g pm pen st) as F;
          pose proof (@hypotheses_to_reward_val _ _ _ _ cfg g pm pen st) as V;
          destruct (hypotheses_to_reward cfg g pm pen st) as [[l|e] s3]
      end; simpl.
      * destruct (V _ _ eq_refl) as (p & others & -> & I).
        eexists. split; [apply get_set_same|].
        destruct (@reward_loop_keys_grow p others pen I) as [K|[K N]];
          rewrite Kp in *; [now left|]. right. now exists p.
      * exists pen. destruct F as (Ft & _). simpl in Ft.
        split; [rewrite Ft; apply get_set_same | now left].
  - exists hyps. unfold learning_step.
    unfold bind at 1, gets at 1. unfold bind at 1. rewrite G.
    unfold lift_option at 1, ret at 1. unfold bind at 1. rewrite Mx.
    simpl. auto.
Qed.
End Edges.

(** ** What one [observe] call does to the learner *)

Section ObserveFacts.
Context {Pattern Graph Rng : Type} `{EqDec Pattern}.
Context {E : Environment Pattern Graph Rng}.
Variable cfg : Params.

Local Abbreviation State := (State (Pattern:=Pattern) (Rng:=Rng)).
Local Abbreviation table := words_to_hypotheses_and_scores.
Local Abbreviation counts := words_to_number_of_observations.

Lemma learn_word_eq g w (s : State) :
  learn_word cfg g w s =
  if is_determiner w then (Val tt, s)
  else
    let s1 := snd (count_observation w s) in
    if Dict.mem w (lexicon s1) then (Val tt, s1)
    else if Dict.mem w (table s1)
         then match learning_step cfg w g s1 with
              | (Val true, s2) => lexicon_step cfg w s2
              | (Val false, s2) => (Val tt, s2)
              | (Raise e, s2) => (Raise e, s2)
              end
         else initialization_step cfg w g s1.
Proof.
  unfold learn_word. fold (is_determiner w).
  destruct (is_determiner w); [reflexivity|].
  unfold bind, gets. unfold count_observation at 1, modify at 1.
  cbv beta iota zeta. unfold count_observation, modify. cbn [snd].
  match goal with
  | |- context [negb (Dict.mem w (lexicon ?st))] =>
      set (s1 := st) in *; destruct (Dict.mem w (lexicon s1))
  end; cbv beta iota delta [negb]; [reflexivity|].
  match goal with
  | |- context [if ?c then false else true] => destruct c
  end; cbv beta iota; [|reflexivity].
  destruct (learning_step cfg w g s1) as [[[|]|e] s2]; reflexivity.
Qed.

Lemma count_observation_count w w' (s : State) :
  count_of (snd (count_observation w s)) w'
  = (count_of s w' + if String.eqb w w' then 1 else 0)%nat.
Proof.
  unfold count_of, count_observation, modify. simpl.
  destruct (String.eqb_spec w w') as [<-|N].
  - destruct (Dict.get w (counts s)); rewrite get_set_same; lia.
  - destruct (Dict.get w (counts s)); rewrite get_set_other by assumption;
      lia.
Qed.

(** Whatever the outcome, handling a word changes the observation counts by
    exactly the count of that word, if it is not a determiner. *)
Lemma learn_word_count g w w' (s : State) :
  count_of (snd (learn_word cfg g w s)) w'
  = (count_of s w'
     + if negb (is_determiner w) && String.eqb w w' then 1 else 0)%nat.
Proof.
  rewrite learn_word_eq. destruct (is_determiner w); [simpl; lia|].
  cbv zeta. cbn [negb andb]. rewrite <- count_observation_count.
  remember (snd (count_observation w s)) as s1 eqn:Es1. clear Es1.
  assert (forall s2 : State, counts s2 = counts s1 ->
                             count_of s2 w' = count_of s1 w') as Same.
  { intros s2 C. unfold count_of. now rewrite C. }
  destruct (Dict.mem w (lexicon s1)); [reflexivity|].
  destruct (Dict.mem w (table s1)).
  - destruct (learning_step_frame cfg w g s1) as (_ & Fc & _).
    destruct (learning_step cfg w g s1) as [[[|]|e] s2]; simpl in *;
      try (now apply Same).
    destruct (lexicon_step_cases cfg w s2) as [->|(p & n & -> & _)];
      now apply Same.
  - destruct (initialization_step_cases cfg w g s1) as [->|[h ->]];
      now apply Same.
Qed.

(** X8. [observe] never lowers an observation count; and when it returns, the
    count of every word that is not a determiner has grown by the number of
    times the word occurs in the description -- whether the word is being
    learned or is already in the lexicon -- while determiners are not
    counted at all. *)
Theorem observe_counts_the_words ex (s : State) w :
  (count_of s w <= count_of (snd (observe cfg ex s)) w)%nat
  /\ (fst (observe cfg ex s) = Val tt ->
      count_of (snd (observe cfg ex s)) w
      = (count_of s w
         + if is_determiner w then 0
           else occurrences w (linguistic_description ex))%nat).
Proof.
  assert (forall g words (s0 : State),
             (count_of s0 w
              <= count_of (snd (learn_with_pursuit cfg g words s0)) w)%nat
             /\ (fst (learn_with_pursuit cfg g words s0) = Val tt ->
                 count_of (snd (learn_with_pursuit cfg g words s0)) w
                 = (count_of s0 w
                    + if is_determiner w then 0
                      else occurrences w words)%nat)) as L.
  { unfold learn_with_pursuit. intros g words.
    induction words as [|w' r IH]; intros s0; simpl.
    - split; [lia|]. intros _. destruct (is_determiner w); lia.
    - unfold bind. pose proof (learn_word_count g w' w s0) as C.
      destruct (learn_word cfg g w' s0) as [[[]|e] s1]; simpl in C |- *.
      + destruct (IH s1) as [Mono Exact]. split; [lia|].
        intros V. rewrite (Exact V), C.
        destruct (String.eqb_spec w' w) as [->|N].
        * destruct (is_determiner w); simpl; lia.
        * rewrite andb_false_r. destruct (is_determiner w); lia.
      + split; [lia | discriminate]. }
  unfold observe, bind, modify at 1.
  assert (forall s0 : State, count_of (incr_observation_num s0) w = count_of s0 w)
    as Obs by reflexivity.
  destruct (single_frame_graph _ (perception_frames ex)) as [g|e].
  - rewrite <- (Obs s). apply L.
  - simpl. split; [rewrite Obs; lia | discriminate].
Qed.

(** X22. [observe] counts itself: the running observation number goes up by
    exactly one in every call, whether the call returns or raises, and
    whatever the description is. *)
Theorem observe_increments_observation_num ex (s : State) :
  observation_num (snd (observe cfg ex s)) = S (observation_num s).
Proof.
  unfold observe, bind, modify at 1.
  destruct (single_frame_graph _ (perception_frames ex)) as [g|e];
    [|reflexivity].
  change (S (observation_num s)) with (observation_num (incr_observation_num s)).
  apply learn_with_pursuit_steps
    with (R := fun a b : State => observation_num b = observation_num a)
         (W := fun _ => True); try auto; try congruence.
  - intros w g0 s0 _ _ _ _ _.
    destruct (initialization_step_cases cfg w g0 s0) as [->|[h ->]]; reflexivity.
  - intros w g0 s0 _ _ _ _ _.
    now destruct (learning_step_state cfg w g0 s0) as (_ & _ & O & _).
  - intros w s0 _ _ _ _ _.
    destruct (lexicon_step_cases cfg w s0) as [->|(p & n & -> & _)]; reflexivity.
Qed.

(** X9. The lexicon only grows: an entry, once filed, is the same after every
    later [observe], also one that raises. *)
Theorem observe_keeps_lexicon_entries ex (s : State) w p :
  Dict.get w (lexicon s) = Some p ->
  Dict.get w (lexicon (snd (observe cfg ex s))) = Some p.
Proof.
  revert w p.
  apply observe_steps
    with (R := fun a b : State =>
                 forall w p, Dict.get w (lexicon a) = Some p ->
                             Dict.get w (lexicon b) = Some p)
         (W := fun _ => True); try auto.
  - intros w g0 s0 _ _ _ _ _ w0 p0 G.
    destruct (initialization_step_cases cfg w g0 s0) as [->|[h ->]]; exact G.
  - intros w g0 s0 _ _ _ _ _ w0 p0 G.
    destruct (learning_step_state cfg w g0 s0) as (L & _). now rewrite L.
  - intros w s0 _ _ _ Ml _ w0 p0 G.
    destruct (lexicon_step_cases cfg w s0) as [->|(q & n & -> & _)];
      [exact G|].
    simpl. rewrite get_set_other; [exact G|].
    intros <-. unfold Dict.mem in Ml. now rewrite G in Ml.
Qed.

(** X10. [observe] touches only the words of the description: a word that does
    not occur in it, or is a determiner, keeps its hypothesis table entry,
    its lexicon entry and its observation count, also when the call
    raises. *)
Theorem observe_leaves_other_words_alone ex (s : State) w :
  ~ In w (linguistic_description ex) \/ is_determiner w = true ->
  Dict.get w (table (snd (observe cfg ex s))) = Dict.get w (table s)
  /\ Dict.get w (lexicon (snd (observe cfg ex s))) = Dict.get w (lexicon s)
  /\ Dict.get w (counts (snd (observe cfg ex s))) = Dict.get w (counts s).
Proof.
  intros Other.
  apply observe_steps
    with (R := fun a b : State =>
                 Dict.get w (table b) = Dict.get w (table a)
                 /\ Dict.get w (lexicon b) = Dict.get w (lexicon a)
                 /\ Dict.get w (counts b) = Dict.get w (counts a))
         (W := fun w' => is_determiner w' = false -> w' <> w).
  - auto.
  - intros a b c (A1 & A2 & A3) (B1 & B2 & B3). repeat split; congruence.
  - intros w' s0 Ww D. unfold count_observation, modify. simpl.
    repeat split.
    destruct (Dict.get w' (counts s0)); apply get_set_other; auto.
  - intros w' g0 s0 Ww D _ _ _.
    destruct (initialization_step_state cfg w' g0 s0) as [->|[q ->]];
      [auto|]. simpl. repeat split. apply get_set_other; auto.
  - intros w' g0 s0 Ww D _ _ _.
    destruct (learning_step_state cfg w' g0 s0) as (L & C & _ & T).
    rewrite L, C. repeat split.
    destruct T as [->|(hyps & lead & X & _ & _ & -> & _)]; [reflexivity|].
    apply get_set_other; auto.
  - intros w' s0 Ww D _ _ _.
    destruct (lexicon_step_cases cfg w' s0) as [->|(q & n & -> & _)];
      [auto|]. simpl. repeat split.
    + apply get_pop_other; auto.
    + apply get_set_other; auto.
  - intros s0. auto.
  - intros w' I D ->. destruct Other as [N|Dw]; [contradiction | congruence].
Qed.

Lemma learn_word_known g w (s : State) :
  (forall w', Dict.mem w' (lexicon s) || Dict.mem w' (table s) = true ->
              Dict.mem w' (lexicon (snd (learn_word cfg g w s)))
              || Dict.mem w' (table (snd (learn_word cfg g w s))) = true)
  /\ (fst (learn_word cfg g w s) = Val tt -> is_determiner w = false ->
      Dict.mem w (lexicon (snd (learn_word cfg g w s)))
      || Dict.mem w (table (snd (learn_word cfg g w s))) = true).
Proof.
  rewrite learn_word_eq. destruct (is_determiner w); [split; [auto | discriminate]|].
  cbv zeta.
  assert (lexicon (snd (count_observation w s)) = lexicon s
          /\ table (snd (count_observation w s)) = table s) as [L1 T1]
    by (split; reflexivity).
  rewrite <- L1, <- T1.
  remember (snd (count_observation w s)) as s1 eqn:Es1. clear Es1 L1 T1.
  assert (forall s2 : State,
             snd (lexicon_step cfg w s2) = s2
             \/ (forall w', Dict.mem w' (lexicon s2) || Dict.mem w' (table s2) = true ->
                            Dict.mem w' (lexicon (snd (lexicon_step cfg w s2)))
                            || Dict.mem w' (table (snd (lexicon_step cfg w s2))) = true)
                /\ Dict.mem w (lexicon (snd (lexicon_step cfg w s2))) = true) as Lx.
  { intros s2. destruct (lexicon_step_cases cfg w s2) as [->|(q & n & -> & _)];
      [now left|]. right. simpl. split.
    - intros w'. rewrite mem_set, mem_pop.
      destruct (eqb w' w) eqn:Ew; [reflexivity|].
      assert (eqb w w' = false) as Ew'.
      { apply eqb_neq. apply eqb_neq in Ew. congruence. }
      rewrite Ew'. simpl. auto.
    - now rewrite mem_set, eqb_refl. }
  destruct (Dict.mem w (lexicon s1)) eqn:Ml.
  - simpl. split; [auto|]. intros _ _. now rewrite Ml.
  - destruct (Dict.mem w (table s1)) eqn:Mt.
    + destruct (learning_step_frame cfg w g s1) as (Fl & _ & Ft).
      destruct (learning_step cfg w g s1) as [[[|]|e] s2]; simpl in Fl, Ft.
      * destruct (Lx s2) as [U|[K Kw]].
        -- rewrite U. rewrite Fl. split.
           ++ intros w'. now rewrite Ft.
           ++ intros _ _. rewrite Ft, Mt. apply orb_true_r.
        -- split.
           ++ intros w' Kn. apply K. now rewrite Fl, Ft.
           ++ intros _ _. now rewrite Kw.
      * simpl. rewrite Fl. split.
        -- intros w'. now rewrite Ft.
        -- intros _ _. rewrite Ft, Mt. apply orb_true_r.
      * simpl. rewrite Fl. split; [|discriminate].
        intros w'. now rewrite Ft.
    + unfold initialization_step, bind, gets, lift_option, ret, raise, modify.
      cbv beta.
      destruct (hd_error (map from_graph (get_objects_from_perception g)));
        simpl; [|split; [auto | discriminate]].
      split.
      * intros w' Kn. rewrite mem_set.
        destruct (Dict.mem w' (lexicon s1)); [reflexivity|]. simpl in *.
        rewrite Kn. apply orb_true_r.
      * intros _ _. rewrite mem_set, eqb_refl. apply orb_true_r.
Qed.

(** X11. When [observe] returns, the learner knows every word of the
    description that is not a determiner: the word has a lexicon entry or a
    hypothesis table entry. *)
Theorem observe_makes_the_words_known ex (s : State) w :
  fst (observe cfg ex s) = Val tt ->
  In w (linguistic_description ex) ->
  is_determiner w = false ->
  Dict.mem w (lexicon (snd (observe cfg ex s)))
  || Dict.mem w (table (snd (observe cfg ex s))) = true.
Proof.
  assert (forall g words (s0 : State),
             (forall w', Dict.mem w' (lexicon s0) || Dict.mem w' (table s0) = true ->
                         Dict.mem w' (lexicon (snd (learn_with_pursuit cfg g words s0)))
                         || Dict.mem w' (table (snd (learn_with_pursuit cfg g words s0)))
                         = true)
             /\ (fst (learn_with_pursuit cfg g words s0) = Val tt ->
                 In w words -> is_determiner w = false ->
                 Dict.mem w (lexicon (snd (learn_with_pursuit cfg g words s0)))
                 || Dict.mem w (table (snd (learn_with_pursuit cfg g words s0)))
                 = true)) as L.
  { unfold learn_with_pursuit. intros g words.
    induction words as [|w' r IH]; intros s0; simpl.
    - split; [auto | contradiction].
    - unfold bind. destruct (learn_word_known g w' s0) as [K1 K2].
      destruct (learn_word cfg g w' s0) as [[[]|e] s1]; simpl in K1, K2 |- *.
      + destruct (IH s1) as [K3 K4]. split; [auto|].
        intros V [->|I] D; [apply K3; now apply K2 | now apply K4].
      + split; [exact K1 | discriminate]. }
  unfold observe, bind, modify at 1.
  destruct (single_frame_graph _ (perception_frames ex)) as [g|e];
    [|discriminate].
  apply L.
Qed.
End ObserveFacts.


(** ** Invariants of the learner's tables *)

Section TableInvariants.
Context {Pattern Graph Rng : Type} `{EqDec Pattern}.
Context {E : Environment Pattern Graph Rng}.
Variable cfg : Params.

Local Abbreviation State := (State (Pattern:=Pattern) (Rng:=Rng)).
Local Abbreviation table := words_to_hypotheses_and_scores.
Local Abbreviation counts := words_to_number_of_observations.

Lemma determiner_differs d w :
  is_determiner d = true -> is_determiner w = false -> eqb d w = false.
Proof.
  intros Dd Dw. apply eqb_neq. intros ->. congruence.
Qed.

Lemma observe_keeps_determiners_unknown ex (s : State) :
  determiners_unknown s -> determiners_unknown (snd (observe cfg ex s)).
Proof.
  apply observe_steps
    with (R := fun a b : State => determiners_unknown a -> determiners_unknown b)
         (W := fun _ => True); try auto.
  - intros w s0 _ D I d Dd. destruct (I d Dd) as (C & T & L).
    unfold count_observation, modify. simpl. repeat split; try assumption.
    destruct (Dict.get w (counts s0));
      now rewrite mem_set, C, (determiner_differs _ _ Dd D).
  - intros w g0 s0 _ D _ _ _ I d Dd. destruct (I d Dd) as (C & T & L).
    destruct (initialization_step_state cfg w g0 s0) as [->|[q ->]];
      [auto|]. simpl. repeat split; try assumption.
    now rewrite mem_set, T, (determiner_differs _ _ Dd D).
  - intros w g0 s0 _ D _ _ _ I d Dd. destruct (I d Dd) as (C & T & L).
    destruct (learning_step_frame cfg w g0 s0) as (Fl & Fc & Ft).
    rewrite Fl, Fc, Ft. auto.
  - intros w s0 _ D _ _ _ I d Dd. destruct (I d Dd) as (C & T & L).
    destruct (lexicon_step_cases cfg w s0) as [->|(q & n & -> & _)];
      [auto|]. simpl. repeat split; try assumption.
    + rewrite mem_pop, T. apply andb_false_r.
    + now rewrite mem_set, L, (determiner_differs _ _ Dd D).
Qed.

Lemma reinforce_in_range gamma x :
  0 <= gamma -> gamma <= 1 -> 0 <= x /\ x <= 1 ->
  0 <= reinforce gamma x /\ reinforce gamma x <= 1.
Proof. unfold reinforce. intros G0 G1 [X0 X1]. split; nra. Qed.

Lemma penalize_in_range gamma x :
  0 <= gamma -> gamma <= 1 -> 0 <= x /\ x <= 1 ->
  0 <= penalize gamma x /\ penalize gamma x <= 1.
Proof. unfold penalize. intros G0 G1 [X0 X1]. split; nra. Qed.

Lemma score_in_in_range (h : hypotheses) k :
  in_range h -> 0 <= score_in h k /\ score_in h k <= 1.
Proof.
  intros R. unfold score_in. destruct (Dict.get k h) as [sc|] eqn:G.
  - apply get_In in G. eapply R; eauto.
  - split; lra.
Qed.

Lemma set_in_range (h : hypotheses) k v :
  in_range h -> 0 <= v /\ v <= 1 -> in_range (Dict.set k v h).
Proof.
  intros R V p sc I. apply In_set in I. destruct I as [I|[_ ->]]; eauto.
Qed.

Lemma reward_loop_in_range to_reward :
  0 <= learning_factor cfg -> learning_factor cfg <= 1 ->
  forall (h : hypotheses) boosted,
    in_range h -> in_range (fst (reward_loop cfg to_reward h boosted)).
Proof.
  intros G0 G1. induction to_reward as [|p r IH]; intros h boosted R; simpl;
    [assumption|].
  destruct (existsb _ boosted); apply IH; [assumption|].
  apply set_in_range; [assumption|].
  apply reinforce_in_range; try assumption.
  apply (score_in_in_range _ R).
Qed.

Lemma observe_keeps_scores_in_range ex (s : State) :
  0 <= learning_factor cfg -> learning_factor cfg <= 1 ->
  scores_in_range s -> scores_in_range (snd (observe cfg ex s)).
Proof.
  intros G0 G1.
  apply observe_steps
    with (R := fun a b : State => scores_in_range a -> scores_in_range b)
         (W := fun _ => True); try auto.
  - intros w g0 s0 _ _ _ _ _ I.
    destruct (initialization_step_state cfg w g0 s0) as [->|[q ->]];
      [auto|]. intros w' h p sc Iw Ip. simpl in Iw.
    apply In_set in Iw. destruct Iw as [Iw|[_ ->]]; [eapply I; eauto|].
    destruct Ip as [[= _ <-]|[]]. split; assumption.
  - intros w g0 s0 _ _ _ _ _ I.
    destruct (learning_step_state cfg w g0 s0)
      as (_ & _ & _ & [T|(hyps & lead & X & G & Mx & T & Xc)]);
      intros w' h p sc Iw Ip; rewrite T in Iw; [eapply I; eauto|].
    apply In_set in Iw. destruct Iw as [Iw|[_ ->]]; [eapply I; eauto|].
    assert (in_range hyps) as Rh.
    { intros p' sc' Ip'. apply get_In in G. eapply I; eauto. }
    assert (in_range X) as Rx.
    { destruct Xc as [->|[l ->]].
      - apply set_in_range; [assumption|].
        apply reinforce_in_range; try assumption. now apply score_in_in_range.
      - apply reward_loop_in_range; try assumption.
        apply set_in_range; [assumption|].
        apply penalize_in_range; try assumption. now apply score_in_in_range. }
    eapply Rx; eauto.
  - intros w s0 _ _ _ _ _ I.
    destruct (lexicon_step_cases cfg w s0) as [->|(q & n & -> & _)];
      [auto|]. intros w' h p sc Iw Ip. simpl in Iw.
    unfold Dict.pop in Iw. apply filter_In in Iw. destruct Iw as [Iw _].
    eapply I; eauto.
Qed.

Lemma mem_counts_grows w w' (s : State) :
  Dict.mem w' (counts s) = true ->
  Dict.mem w' (counts (snd (count_observation w s))) = true.
Proof.
  intros M. unfold count_observation, modify. simpl.
  destruct (Dict.get w (counts s)); rewrite mem_set, M; apply orb_true_r.
Qed.

Lemma observe_keeps_tables_inhabited ex (s : State) :
  tables_inhabited s -> tables_inhabited (snd (observe cfg ex s)).
Proof.
  apply observe_steps
    with (R := fun a b : State => tables_inhabited a -> tables_inhabited b)
         (W := fun _ => True); try auto.
  - intros w s0 _ _ I w' h Iw. destruct (I w' h Iw) as [N C].
    split; [assumption | now apply mem_counts_grows].
  - intros w g0 s0 _ _ Cw _ _ I.
    destruct (initialization_step_state cfg w g0 s0) as [->|[q ->]];
      [auto|]. intros w' h Iw. simpl in Iw |- *.
    apply In_set in Iw. destruct Iw as [Iw|[-> ->]]; [now apply I|].
    split; [discriminate | assumption].
  - intros w g0 s0 _ _ Cw _ _ I.
    destruct (learning_step_state cfg w g0 s0)
      as (_ & C & _ & [T|(hyps & lead & X & G & Mx & T & Xc)]);
      intros w' h Iw; rewrite T in Iw; rewrite C; [now apply I|].
    apply In_set in Iw. destruct Iw as [Iw|[-> ->]]; [now apply I|].
    split; [|assumption].
    destruct Xc as [->|[l ->]]; [apply set_not_nil|].
    apply reward_loop_not_nil, set_not_nil.
  - intros w s0 _ _ _ _ _ I.
    destruct (lexicon_step_cases cfg w s0) as [->|(q & n & -> & _)];
      [auto|]. intros w' h Iw. simpl in Iw |- *.
    unfold Dict.pop in Iw. apply filter_In in Iw. destruct Iw as [Iw _].
    now apply I.
Qed.
End TableInvariants.


(** ** The hypothesis that is confirmed is the hypothesis that is filed *)

Section ConfirmedAndFiled.
Context {Pattern Graph Rng : Type} `{EqDec Pattern}.
Context {E : Environment Pattern Graph Rng}.
Variable cfg : Params.

Local Abbreviation State := (State (Pattern:=Pattern) (Rng:=Rng)).
Local Abbreviation table := words_to_hypotheses_and_scores.
Local Abbreviation counts := words_to_number_of_observations.

Lemma set_keeps_distinct (h : hypotheses) k v :
  NoDup (Dict.keys h) -> NoDup (Dict.keys (Dict.set k v h)).
Proof.
  intros N. destruct (Dict.mem k h) eqn:M.
  - now rewrite keys_set_present.
  - rewrite keys_set_absent by assumption.
    apply NoDup_app; [assumption | constructor; [intros [] | constructor] |].
    intros x Ix [<-|[]]. apply mem_keys in Ix. congruence.
Qed.

Lemma reward_loop_keeps_distinct to_reward :
  forall (h : hypotheses) boosted,
    NoDup (Dict.keys h) ->
    NoDup (Dict.keys (fst (reward_loop cfg to_reward h boosted))).
Proof.
  induction to_reward as [|p r IH]; intros h boosted N; simpl; [assumption|].
  destruct (existsb _ boosted); apply IH; [assumption|].
  now apply set_keeps_distinct.
Qed.

Lemma observe_keeps_distinct_keys ex (s : State) :
  distinct_keys s -> distinct_keys (snd (observe cfg ex s)).
Proof.
  apply observe_steps
    with (R := fun a b : State => distinct_keys a -> distinct_keys b)
         (W := fun _ => True); try auto.
  - intros w g0 s0 _ _ _ _ _ I.
    destruct (initialization_step_state cfg w g0 s0) as [->|[q ->]];
      [auto|]. intros w' h Iw. simpl in Iw.
    apply In_set in Iw. destruct Iw as [Iw|[_ ->]]; [now apply (I w')|].
    simpl. constructor; [intros [] | constructor].
  - intros w g0 s0 _ _ _ _ _ I.
    destruct (learning_step_state cfg w g0 s0)
      as (_ & _ & _ & [T|(hyps & lead & X & G & Mx & T & Xc)]);
      intros w' h Iw; rewrite T in Iw; [now apply (I w')|].
    apply In_set in Iw. destruct Iw as [Iw|[_ ->]]; [now apply (I w')|].
    assert (NoDup (Dict.keys hyps)) as Nh.
    { apply get_In in G. now apply (I w). }
    destruct Xc as [->|[l ->]]; [now apply set_keeps_distinct|].
    now apply reward_loop_keeps_distinct, set_keeps_distinct.
  - intros w s0 _ _ _ _ _ I.
    destruct (lexicon_step_cases cfg w s0) as [->|(q & n & -> & _)];
      [auto|]. intros w' h Iw. simpl in Iw.
    unfold Dict.pop in Iw. apply filter_In in Iw. destruct Iw as [Iw _].
    now apply (I w').
Qed.

(** Raising the key of the maximum keeps it the maximum. *)
Lemma max_by_raise (key key' : Pattern -> Q) x :
  (forall y, y <> x -> key' y = key y) -> key x <= key' x ->
  forall l best, max_by key best l = x -> max_by key' best l = x.
Proof.
  intros Off Up. induction l as [|y r IH]; intros best; simpl; [auto|].
  intros Mx.
  assert ((if Qltb (key' best) (key' y) then y else best)
          = (if Qltb (key best) (key y) then y else best)) as ->;
    [|now apply IH].
  destruct (eqb best x) eqn:Eb; destruct (eqb y x) eqn:Ey;
    try (apply eqb_eq in Eb; subst best); try (apply eqb_eq in Ey; subst y);
    try apply eqb_neq in Eb; try apply eqb_neq in Ey.
  - now destruct (Qltb (key' x) (key' x)), (Qltb (key x) (key x)).
  - rewrite (Off y Ey).
    destruct (Qltb (key x) (key y)) eqn:L.
    + exfalso. apply Qltb_lt in L.
      destruct (max_by_first key r y) as [[Eq _]|(_ & _ & _ & Lt & _)];
        rewrite Mx in *; [congruence|].
      apply (Qlt_irrefl (key x)). eapply Qlt_trans; eauto.
    + apply Qltb_ge in L.
      assert (Qltb (key' x) (key y) = false) as ->; [|reflexivity].
      apply Qltb_ge. eapply Qle_trans; eauto.
  - rewrite (Off best Eb).
    destruct (Qltb (key best) (key x)) eqn:L.
    + apply Qltb_lt in L.
      assert (Qltb (key best) (key' x) = true) as ->; [|reflexivity].
      apply Qltb_lt. eapply Qlt_le_trans; eauto.
    + exfalso. apply Qltb_ge in L.
      destruct (max_by_first key r best) as [[Eq _]|(_ & _ & _ & Lt & _)];
        rewrite Mx in *; [congruence|].
      apply (Qlt_irrefl (key x)). eapply Qle_lt_trans; eauto.
  - now rewrite (Off best Eb), (Off y Ey).
Qed.

(** The maximum over the keys, looked up, is the maximum over the items. *)
Lemma max_by_items (full : hypotheses) l :
  forall best,
    (forall k v, In (k, v) (best :: l) -> score_in full k = v) ->
    max_by (fun entry : Pattern * Q => snd entry) best l
    = (max_by (score_in full) (fst best) (map fst l),
       score_in full (max_by (score_in full) (fst best) (map fst l))).
Proof.
  induction l as [|[k v] r IH]; intros [kb vb] A; simpl.
  - f_equal. symmetry. apply A. now left.
  - assert (score_in full kb = vb) as -> by (apply A; now left).
    assert (score_in full k = v) as -> by (apply A; right; now left).
    destruct (Qltb vb v).
    + apply IH. intros k' v' [I|I]; apply A; [right; now left | do 2 right; auto].
    + apply IH. intros k' v' [I|I]; apply A; [now left | do 2 right; auto].
Qed.

Lemma score_in_distinct (h : hypotheses) k v :
  NoDup (Dict.keys h) -> In (k, v) h -> score_in h k = v.
Proof.
  unfold score_in. induction h as [|[k0 v0] r IH]; simpl; [contradiction|].
  intros N I. inversion N as [|? ? Nk Nr]; subst.
  destruct I as [[= -> ->]|I].
  - now rewrite eqb_refl.
  - destruct (eqb k k0) eqn:Ek; [|auto].
    apply eqb_eq in Ek. subst k0. exfalso. apply Nk.
    apply in_map_iff. now exists (k, v).
Qed.

(** For a table without repeated keys, [_leading_hypothesis_for] and the
    [max] of [learning_step] pick the same hypothesis. *)
Lemma leading_of_agrees (h : hypotheses) lead :
  NoDup (Dict.keys h) ->
  py_max (score_in h) (Dict.keys h) = Some lead ->
  leading_of h = Some (lead, score_in h lead).
Proof.
  intros N. unfold leading_of. destruct h as [|[k0 v0] r]; simpl; [discriminate|].
  intros [= Mx]. f_equal.
  rewrite (@max_by_items ((k0, v0) :: r) r (k0, v0)).
  - simpl fst. unfold Dict.keys in Mx. now rewrite Mx.
  - intros k v I. now apply score_in_distinct.
Qed.

Lemma lexicon_step_files_leading word (s : State) p sc :
  _leading_hypothesis_for word s = Some (p, sc) ->
  snd (lexicon_step cfg word s) = s
  \/ snd (lexicon_step cfg word s)
     = with_table (Dict.pop word) (with_lexicon (Dict.set word p) s).
Proof.
  intros L.
  unfold lexicon_step, bind, gets, lift_option, ret, raise, modify. cbv beta.
  rewrite L.
  destruct (Dict.get word (table s)) as [hyps|]; [|now left].
  destruct (probability_of_meaning_given_word cfg sc hyps) as [P|]; [|now left].
  destruct (Dict.get word (counts s)) as [n|]; [|now left].
  destruct (Qltb (lexicon_entry_threshold cfg) P); [|now left].
  destruct (Nat.ltb 5 n); [now right | now left].
Qed.

(** When [learning_step] returns [True] for a word whose table has no
    repeated key, a learning factor that is not negative and a leading
    score of at most 1: the leading hypothesis [lead] it tested matches the
    scene exactly, [lead] is still the leading hypothesis afterwards, now
    with the reinforced score, and so the [lexicon_step] that follows
    either changes nothing or files exactly [lead] under the word. *)
Lemma confirmed_hypothesis_is_the_one_filed
    word g (s : State) (hyps : hypotheses) lead :
  Dict.get word (table s) = Some hyps ->
  NoDup (Dict.keys hyps) ->
  py_max (score_in hyps) (Dict.keys hyps) = Some lead ->
  0 <= learning_factor cfg ->
  score_in hyps lead <= 1 ->
  fst (learning_step cfg word g s) = Val true ->
  let s1 := snd (learning_step cfg word g s) in
  matched_exactly (partial_match_of lead g) = true
  /\ _leading_hypothesis_for word s1
     = Some (lead, reinforce (learning_factor cfg) (score_in hyps lead))
  /\ (snd (lexicon_step cfg word s1) = s1
      \/ snd (lexicon_step cfg word s1)
         = with_table (Dict.pop word) (with_lexicon (Dict.set word lead) s1)).
Proof.
  intros G N Mx G0 S1. rewrite (learning_step_eq cfg word g s G Mx).
  destruct (matched_exactly (partial_match_of lead g)
            && truthy (matching_subgraph (partial_match_of lead g))) eqn:C.
  - intros _. cbv zeta. simpl snd.
    apply andb_true_iff in C. destruct C as [Ex _].
    set (old := score_in hyps lead).
    set (hyps' := Dict.set lead (reinforce (learning_factor cfg) old) hyps).
    assert (Dict.mem lead hyps = true) as Ml.
    { apply mem_keys. eapply py_max_In; eauto. }
    assert (_leading_hypothesis_for word
              (with_table (Dict.set (V:=hypotheses) word hyps')
                 (incr_debug_counter (incr_debug_counter s)))
            = Some (lead, reinforce (learning_factor cfg) old)) as L.
    { unfold _leading_hypothesis_for. simpl. rewrite get_set_same.
      assert (score_in hyps' lead = reinforce (learning_factor cfg) old) as <-.
      { unfold score_in, hyps'. now rewrite get_set_same. }
      apply leading_of_agrees.
      - now apply set_keeps_distinct.
      - unfold hyps'. rewrite keys_set_present by assumption.
        destruct (Dict.keys hyps) as [|k0 r] eqn:K; [discriminate|].
        simpl in Mx |- *. injection Mx as Mx. f_equal.
        apply max_by_raise with (key := score_in hyps); [| |exact Mx].
        + intros y Ny. unfold score_in. rewrite get_set_other; congruence.
        + unfold score_in at 2. rewrite get_set_same. fold old.
          unfold reinforce. fold old in S1. nra. }
    split; [exact Ex|]. split; [exact L|].
    eapply lexicon_step_files_leading; eauto.
  - cbv zeta.
    match goal with
    | |- context [hypotheses_to_reward cfg g ?pm ?pen ?st] =>
        destruct (hypotheses_to_reward cfg g pm pen st) as [[l|e] s3]
    end; discriminate.
Qed.
End ConfirmedAndFiled.

(** ** Invariants of every run *)

Section RunInvariants.
Context {Pattern Graph Rng : Type} `{EqDec Pattern}.
Variable cfg : Params.

Local Abbreviation State := (State (Pattern:=Pattern) (Rng:=Rng)).
Local Abbreviation table := words_to_hypotheses_and_scores.
Local Abbreviation counts := words_to_number_of_observations.

Lemma reachable_determiners_unknown (s : State) :
  reachable (Graph:=Graph) cfg s -> determiners_unknown s.
Proof.
  induction 1 as [r|E ex s R IH].
  - intros d _. repeat split.
  - now apply observe_keeps_determiners_unknown.
Qed.

Lemma reachable_scores_in_range (s : State) :
  0 <= learning_factor cfg -> learning_factor cfg <= 1 ->
  reachable (Graph:=Graph) cfg s -> scores_in_range s.
Proof.
  intros G0 G1. induction 1 as [r|E ex s R IH].
  - intros w hyps p sc [].
  - now apply observe_keeps_scores_in_range.
Qed.

Lemma reachable_tables_inhabited (s : State) :
  reachable (Graph:=Graph) cfg s -> tables_inhabited s.
Proof.
  induction 1 as [r|E ex s R IH].
  - intros w hyps [].
  - now apply observe_keeps_tables_inhabited.
Qed.

Lemma reachable_distinct_keys (s : State) :
  reachable (Graph:=Graph) cfg s -> distinct_keys s.
Proof.
  induction 1 as [r|E ex s R IH].
  - intros w hyps [].
  - now apply observe_keeps_distinct_keys.
Qed.

(** X13. The determiners "a" and "the" are never learned: in every state a run
    reaches they have no observation count, no hypothesis table entry and no
    lexicon entry, however often they were heard. *)
Theorem determiners_are_never_learned (s : State) d :
  reachable (Graph:=Graph) cfg s ->
  d = "a"%string \/ d = "the"%string ->
  Dict.mem d (counts s) = false
  /\ Dict.mem d (table s) = false
  /\ Dict.mem d (lexicon s) = false.
Proof.
  intros R D. apply (reachable_determiners_unknown R).
  destruct D as [->| ->]; reflexivity.
Qed.

(** X14. With a learning factor in [0, 1], every score of every hypothesis
    table of every state a run reaches lies in [0, 1]. *)
Theorem hypothesis_scores_stay_in_unit_interval (s : State) w hyps p sc :
  0 <= learning_factor cfg -> learning_factor cfg <= 1 ->
  reachable (Graph:=Graph) cfg s ->
  Dict.get w (table s) = Some hyps ->
  In (p, sc) hyps ->
  0 <= sc /\ sc <= 1.
Proof.
  intros G0 G1 R G I. apply get_In in G.
  eapply (reachable_scores_in_range G0 G1 R); eauto.
Qed.

Lemma reachable_leading_and_count (s : State) w :
  reachable (Graph:=Graph) cfg s ->
  Dict.mem w (table s) = true ->
  (exists p sc, _leading_hypothesis_for w s = Some (p, sc))
  /\ exists n, Dict.get w (counts s) = Some n.
Proof.
  intros R M. unfold Dict.mem in M.
  destruct (Dict.get w (table s)) as [hyps|] eqn:G; [|discriminate].
  pose proof (get_In _ _ G) as Ig.
  destruct (reachable_tables_inhabited R w hyps Ig) as [N C].
  split.
  - unfold _leading_hypothesis_for, leading_of. rewrite G.
    destruct hyps as [|e r]; [contradiction|]. simpl.
    destruct (max_by (fun entry : Pattern * Q => snd entry) e r) as [p sc].
    eauto.
  - unfold Dict.mem in C.
    destruct (Dict.get w (counts s)) as [n|]; [eauto | discriminate].
Qed.

(** X15. In every state a run reaches, a word of the hypothesis table has a
    leading hypothesis -- its table is never empty -- and an observation
    count: what [describe] and [lexicon_step] rely on. *)
Theorem hypothesized_words_have_a_leading_hypothesis (s : State) w :
  reachable (Graph:=Graph) cfg s ->
  Dict.mem w (table s) = true ->
  (exists p sc, _leading_hypothesis_for w s = Some (p, sc))
  /\ exists n, Dict.get w (counts s) = Some n.
Proof. apply reachable_leading_and_count. Qed.

(** X16. With a learning factor in [0, 1] and a positive smoothing parameter,
    [lexicon_step] returns for every word of the hypothesis table of every
    state a run reaches: its assertion holds, its division is defined and
    the word has a counter. *)
Theorem lexicon_step_returns_for_hypothesized_words (s : State) w :
  0 <= learning_factor cfg -> learning_factor cfg <= 1 ->
  0 < smoothing_parameter cfg ->
  reachable (Graph:=Graph) cfg s ->
  Dict.mem w (table s) = true ->
  fst (lexicon_step cfg w s) = Val tt.
Proof.
  intros G0 G1 Lam R M.
  destruct (@reachable_leading_and_count s w R M)
    as [(p & sc & L) (n & C)].
  unfold _leading_hypothesis_for in L.
  destruct (Dict.get w (table s)) as [hyps|] eqn:G; [|discriminate].
  destruct (@leading_probability_bounds _ cfg hyps p sc Lam)
    as (P & Pr & _); [|exact L|].
  - intros q sq I. apply get_In in G.
    eapply (reachable_scores_in_range G0 G1 R); eauto.
  - now rewrite (lexicon_step_eq cfg w s G L Pr C).
Qed.

(** X7. In a run with a learning factor in [0, 1]: when [learning_step]
    returns [True] for a word, the hypothesis it tested matches the scene
    exactly, and the [lexicon_step] that follows either changes nothing or
    files exactly that hypothesis under the word. *)
Theorem confirmed_hypothesis_is_filed_in_a_run
    {E : Environment Pattern Graph Rng} word g (s : State) hyps lead :
  0 <= learning_factor cfg -> learning_factor cfg <= 1 ->
  reachable (Graph:=Graph) cfg s ->
  Dict.get word (table s) = Some hyps ->
  py_max (score_in hyps) (Dict.keys hyps) = Some lead ->
  fst (learning_step cfg word g s) = Val true ->
  let s1 := snd (learning_step cfg word g s) in
  matched_exactly (partial_match_of lead g) = true
  /\ (snd (lexicon_step cfg word s1) = s1
      \/ snd (lexicon_step cfg word s1)
         = with_table (Dict.pop word) (with_lexicon (Dict.set word lead) s1)).
Proof.
  intros G0 G1 R G Mx V.
  destruct (@confirmed_hypothesis_is_the_one_filed _ _ _ _ E cfg word g s
              hyps lead G) as (Ex & _ & F); try assumption.
  - apply (reachable_distinct_keys R word). now apply get_In.
  - apply score_in_in_range. intros p sc I. apply get_In in G.
    eapply (reachable_scores_in_range G0 G1 R); eauto.
  - split; assumption.
Qed.
End RunInvariants.

(** ** The further properties at work in the concrete worlds *)

Lemma probability_witness :
  exists P,
    probability_of_meaning_given_word toy_cfg (1 # 2)
      [(3%nat, 1 # 2); (4%nat, 1 # 4)] = Some P
    /\ 0 < P /\ P <= 1.
Proof.
  apply (@probability_of_leading_hypothesis_in_unit_interval nat toy_cfg
           [(3%nat, 1 # 2); (4%nat, 1 # 4)] 3%nat (1 # 2)).
  - reflexivity.
  - intros p sc [[= _ <-]|[[= _ <-]|[]]]; discriminate.
  - reflexivity.
Defined.

Lemma single_hypothesis_witness :
  lexicon (snd (lexicon_step toy_cfg "ball"
                  (toy_state [("ball"%string, [(3%nat, 1 # 2)])] []
                     [("ball"%string, 6%nat)])))
  = [("ball"%string, 3%nat)].
Proof.
  destruct (@single_hypothesis_lexicalized_on_count_alone nat unit toy_cfg
              "ball"
              (toy_state [("ball"%string, [(3%nat, 1 # 2)])] []
                 [("ball"%string, 6%nat)])
              3%nat (1 # 2) 6%nat eq_refl eq_refl) as [_ Eq].
  - intros Z. vm_compute in Z. discriminate.
  - reflexivity.
  - rewrite Eq. reflexivity.
Defined.

Lemma new_word_without_candidates_witness :
  fst (observe (E:=split_env) toy_cfg
         {| perception_frames := [DevelopmentalPrimitivePerceptionFrame 9%nat];
            linguistic_description := ["cup"; "ball"]%string |} split_state)
  = Raise ValueError
  /\ count_of (snd (observe (E:=split_env) toy_cfg
         {| perception_frames := [DevelopmentalPrimitivePerceptionFrame 9%nat];
            linguistic_description := ["cup"; "ball"]%string |} split_state))
       "cup" = 1%nat.
Proof.
  destruct (@observe_new_word_without_candidate_objects _ _ _ _ split_env
              toy_cfg 9%nat "cup"%string ["ball"%string] split_state
              eq_refl eq_refl eq_refl eq_refl) as (Eq & C & _).
  split; [now rewrite Eq | exact C].
Defined.

Lemma update_without_candidates_witness :
  fst (learning_step (E:=split_env) toy_cfg "ball" 9%nat split_state)
  = Raise IndexError.
Proof.
  rewrite (@learning_step_without_candidate_objects _ _ _ _ split_env toy_cfg
             "ball" 9%nat split_state [(1%nat, 1 # 2)] 1%nat
             eq_refl eq_refl).
  - reflexivity.
  - discriminate.
  - reflexivity.
  - reflexivity.
Defined.

Lemma unknown_word_witness :
  learning_step (E:=toy_env) toy_cfg "cup" 3%nat (observe_n 1)
  = (Raise KeyError, observe_n 1)
  /\ lexicon_step toy_cfg "cup" (observe_n 1)
     = (Raise AssertionError, observe_n 1).
Proof.
  apply (@steps_on_unknown_word _ _ _ _ toy_env toy_cfg "cup" 3%nat
           (observe_n 1)).
  reflexivity.
Defined.

Lemma at_most_one_hypothesis_witness :
  exists hyps',
    Dict.get "ball"%string
      (words_to_hypotheses_and_scores
         (snd (learning_step (E:=toy_env) toy_cfg "ball" 4%nat (observe_n 1))))
    = Some hyps'
    /\ (Dict.keys hyps' = [3%nat]
        \/ exists p, Dict.keys hyps' = [3%nat] ++ [p] /\ ~ In p [3%nat]).
Proof.
  apply (@learning_step_adds_at_most_one_hypothesis _ _ _ _ toy_env toy_cfg
           "ball" 4%nat (observe_n 1) [(3%nat, 1 # 2)]).
  reflexivity.
Defined.

Lemma lexicon_entry_kept_witness :
  Dict.get "ball"%string
    (lexicon (snd (observe (E:=toy_env) toy_cfg two_frame_example (observe_n 6))))
  = Some 3%nat.
Proof.
  apply (@observe_keeps_lexicon_entries _ _ _ _ toy_env toy_cfg
           two_frame_example (observe_n 6) "ball"%string 3%nat).
  vm_compute. reflexivity.
Defined.

Lemma other_words_witness :
  Dict.get "ball"%string
    (words_to_hypotheses_and_scores
       (snd (observe (E:=toy_env) toy_cfg
               {| perception_frames := [DevelopmentalPrimitivePerceptionFrame 5%nat];
                  linguistic_description := ["the"; "cup"]%string |}
               (observe_n 2))))
  = Dict.get "ball"%string (words_to_hypotheses_and_scores (observe_n 2)).
Proof.
  apply (@observe_leaves_other_words_alone _ _ _ _ toy_env toy_cfg
           {| perception_frames := [DevelopmentalPrimitivePerceptionFrame 5%nat];
              linguistic_description := ["the"; "cup"]%string |}
           (observe_n 2) "ball"%string).
  left. simpl. intros [D|[D|[]]]; discriminate.
Defined.

Lemma words_known_witness :
  Dict.mem "ball"%string
    (lexicon (snd (observe (E:=toy_env) toy_cfg ball_example (initial_state tt))))
  || Dict.mem "ball"%string
       (words_to_hypotheses_and_scores
          (snd (observe (E:=toy_env) toy_cfg ball_example (initial_state tt))))
  = true.
Proof.
  apply (@observe_makes_the_words_known _ _ _ _ toy_env toy_cfg ball_example
           (initial_state tt) "ball"%string).
  - reflexivity.
  - right. now left.
  - reflexivity.
Defined.

Lemma determiners_witness :
  Dict.mem "a"%string (words_to_number_of_observations (observe_n 6)) = false
  /\ Dict.mem "a"%string (words_to_hypotheses_and_scores (observe_n 6)) = false
  /\ Dict.mem "a"%string (lexicon (observe_n 6)) = false.
Proof.
  apply (@determiners_are_never_learned _ nat _ _ toy_cfg (observe_n 6) "a"%string).
  - apply reachable_observe_n.
  - now left.
Defined.

Lemma scores_in_unit_interval_witness :
  0 <= 2080374784 # 2147483648 /\ 2080374784 # 2147483648 <= 1.
Proof.
  apply (@hypothesis_scores_stay_in_unit_interval _ nat _ _ toy_cfg
           (observe_n 5) "ball"%string [(3%nat, 2080374784 # 2147483648)]
           3%nat (2080374784 # 2147483648)).
  - discriminate.
  - discriminate.
  - apply reachable_observe_n.
  - vm_compute. reflexivity.
  - now left.
Defined.

Lemma leading_hypothesis_exists_witness :
  (exists p sc, _leading_hypothesis_for "ball" (observe_n 2) = Some (p, sc))
  /\ exists n, Dict.get "ball"%string
                 (words_to_number_of_observations (observe_n 2)) = Some n.
Proof.
  apply (@hypothesized_words_have_a_leading_hypothesis _ nat _ _ toy_cfg
           (observe_n 2) "ball"%string).
  - apply reachable_observe_n.
  - vm_compute. reflexivity.
Defined.

Lemma lexicon_step_returns_witness :
  fst (lexicon_step toy_cfg "ball" (observe_n 2)) = Val tt.
Proof.
  apply (@lexicon_step_returns_for_hypothesized_words _ nat _ _ toy_cfg
           (observe_n 2) "ball"%string).
  - discriminate.
  - discriminate.
  - reflexivity.
  - apply reachable_observe_n.
  - vm_compute. reflexivity.
Defined.

Lemma confirmed_and_filed_witness :
  matched_exactly (partial_match_of (E:=toy_env) 3%nat 3%nat) = true
  /\ (snd (lexicon_step toy_cfg "ball"
             (snd (learning_step (E:=toy_env) toy_cfg "ball" 3%nat (observe_n 1))))
      = snd (learning_step (E:=toy_env) toy_cfg "ball" 3%nat (observe_n 1))
      \/ snd (lexicon_step toy_cfg "ball"
                (snd (learning_step (E:=toy_env) toy_cfg "ball" 3%nat (observe_n 1))))
         = with_table (Dict.pop "ball"%string)
             (with_lexicon (Dict.set "ball"%string 3%nat)
                (snd (learning_step (E:=toy_env) toy_cfg "ball" 3%nat
                        (observe_n 1))))).
Proof.
  apply (@confirmed_hypothesis_is_filed_in_a_run _ _ _ _ toy_cfg toy_env
           "ball"%string 3%nat (observe_n 1) [(3%nat, 1 # 2)] 3%nat).
  - discriminate.
  - discriminate.
  - apply reachable_observe_n.
  - reflexivity.
  - reflexivity.
  - reflexivity.
Defined.

(** ** More about [describe] and about lexicalized words *)

Section DescribeFacts.
Context {Pattern Graph Rng : Type} `{EqDec Pattern}.
Context {E : Environment Pattern Graph Rng}.
Variable cfg : Params.

Local Abbreviation State := (State (Pattern:=Pattern) (Rng:=Rng)).
Local Abbreviation table := words_to_hypotheses_and_scores.
Local Abbreviation counts := words_to_number_of_observations.

(** X18. [describe] raises exactly for the perceptions [observe] rejects -- those
    that are not one [DevelopmentalPrimitivePerceptionFrame] -- and then
    with a [RuntimeError]; on any other perception it returns a mapping,
    which for a freshly constructed learner is empty. *)
Theorem describe_raises_only_on_unsupported_perception
    frames (s : State) r :
  ((exists g, frames = [DevelopmentalPrimitivePerceptionFrame g])
   /\ (exists d, describe frames s = Val d)
   /\ describe frames (initial_state r) = Val [])
  \/ ((forall g, frames <> [DevelopmentalPrimitivePerceptionFrame g])
      /\ (exists msg, describe frames s = Raise (RuntimeError msg))
      /\ forall words,
           exists msg,
             fst (observe cfg {| perception_frames := frames;
                                 linguistic_description := words |} s)
             = Raise (RuntimeError msg)).
Proof.
  unfold describe, observe, bind, modify.
  destruct frames as [|[g|] [|f2 rest]]; simpl;
    try (right; split; [intros g'; discriminate|];
         split; [eexists; reflexivity | intros words; eexists; reflexivity]).
  left. split; [now exists g|]. split; [eexists; reflexivity | reflexivity].
Qed.

Lemma leading_in_table w (s : State) p sc :
  _leading_hypothesis_for w s = Some (p, sc) ->
  exists hyps, Dict.get w (table s) = Some hyps /\ In (p, sc) hyps.
Proof.
  unfold _leading_hypothesis_for, leading_of.
  destruct (Dict.get w (table s)) as [hyps|]; [|discriminate].
  intros L. exists hyps. split; [reflexivity|]. eapply py_max_In; eauto.
Qed.

Lemma describe_confidences frames (s : State) d description confidence :
  scores_in_range s ->
  describe frames s = Val d ->
  Dict.get description d = Some confidence ->
  0 <= confidence /\ confidence <= 1.
Proof.
  intros I. unfold describe.
  destruct (single_frame_graph _ frames) as [g|e]; [|discriminate].
  intros [= <-] G. apply get_of_pairs_In in G.
  destruct (describe_lexicon g (lexicon s)) as [|x r] eqn:Dl.
  - apply In_describe_hypotheses in G.
    destruct G as (w & h & sc & _ & L & _ & [= _ ->]).
    destruct (leading_in_table _ _ L) as (hyps & Gt & Ih).
    apply get_In in Gt. eapply I; eauto.
  - rewrite <- Dl in G. apply In_describe_lexicon in G.
    destruct G as (w & p & _ & _ & [= _ ->]). split; discriminate.
Qed.

(** X12. An [observe] call whose description holds only determiners and
    lexicalized words cannot fail on a supported perception: it returns, and
    it changes nothing but the observation counts and the running
    observation number -- no table, no lexicon entry, no draw from the
    random generator. *)
Theorem observe_of_lexicalized_words g words (s : State) :
  (forall w, In w words ->
             is_determiner w = true \/ Dict.mem w (lexicon s) = true) ->
  let ex := {| perception_frames := [DevelopmentalPrimitivePerceptionFrame g];
               linguistic_description := words |} in
  fst (observe cfg ex s) = Val tt
  /\ table (snd (observe cfg ex s)) = table s
  /\ lexicon (snd (observe cfg ex s)) = lexicon s
  /\ rng (snd (observe cfg ex s)) = rng s
  /\ debug_counter (snd (observe cfg ex s)) = debug_counter s.
Proof.
  intros Lx ex.
  assert (forall s0 : State,
             lexicon s0 = lexicon s ->
             fst (learn_with_pursuit cfg g words s0) = Val tt
             /\ table (snd (learn_with_pursuit cfg g words s0)) = table s0
             /\ lexicon (snd (learn_with_pursuit cfg g words s0)) = lexicon s0
             /\ rng (snd (learn_with_pursuit cfg g words s0)) = rng s0
             /\ debug_counter (snd (learn_with_pursuit cfg g words s0))
                = debug_counter s0) as L.
  { unfold learn_with_pursuit. revert Lx.
    induction words as [|w r IH]; intros Lx s0 Ls; simpl.
    - repeat split.
    - unfold bind.
      assert (learn_word cfg g w s0 = (Val tt, s0)
              \/ learn_word cfg g w s0 = (Val tt, snd (count_observation w s0)))
        as Lw.
      { rewrite learn_word_eq. destruct (is_determiner w) eqn:D; [now left|].
        right. cbv zeta.
        assert (Dict.mem w (lexicon (snd (count_observation w s0))) = true) as ->;
          [|reflexivity].
        change (lexicon (snd (count_observation w s0))) with (lexicon s0).
        rewrite Ls. destruct (Lx w (or_introl eq_refl)); congruence. }
      assert (forall w', In w' r ->
                is_determiner w' = true \/ Dict.mem w' (lexicon s) = true) as Lr
        by (intros w' I; apply Lx; now right).
      destruct Lw as [-> | ->].
      + now apply IH.
      + destruct (IH Lr (snd (count_observation w s0)) Ls) as (V & T & Lq & Rg & Dc).
        repeat split; assumption. }
  unfold observe, ex, bind, modify at 1. simpl single_frame_graph. cbv iota beta.
  destruct (L (incr_observation_num s) eq_refl) as (V & T & Lq & Rg & Dc).
  repeat split; assumption.
Qed.
End DescribeFacts.

Section DescribeInRuns.
Context {Pattern Graph Rng : Type} `{EqDec Pattern}.
Variable cfg : Params.

(** X17. With a learning factor in [0, 1], every confidence [describe] reports
    in a state a run has reached lies in [0, 1]. *)
Theorem describe_reports_confidences_in_unit_interval
    {E : Environment Pattern Graph Rng} frames
    (s : State (Pattern:=Pattern) (Rng:=Rng)) d description confidence :
  0 <= learning_factor cfg -> learning_factor cfg <= 1 ->
  reachable (Graph:=Graph) cfg s ->
  describe frames s = Val d ->
  Dict.get description d = Some confidence ->
  0 <= confidence /\ confidence <= 1.
Proof.
  intros G0 G1 R. apply describe_confidences.
  exact (reachable_scores_in_range G0 G1 R).
Qed.
End DescribeInRuns.

Lemma describe_confidence_witness :
  0 <= 6 # 8 /\ 6 # 8 <= 1.
Proof.
  apply (@describe_reports_confidences_in_unit_interval _ _ _ _ toy_cfg toy_env
           [DevelopmentalPrimitivePerceptionFrame 3%nat] (observe_n 2)
           [(["a"; "ball"]%string, 6 # 8)] ["a"; "ball"]%string (6 # 8)).
  - discriminate.
  - discriminate.
  - apply reachable_observe_n.
  - vm_compute. reflexivity.
  - reflexivity.
Defined.

Lemma lexicalized_words_witness :
  fst (observe (E:=toy_env) toy_cfg ball_example (observe_n 6)) = Val tt
  /\ lexicon (snd (observe (E:=toy_env) toy_cfg ball_example (observe_n 6)))
     = lexicon (observe_n 6).
Proof.
  destruct (@observe_of_lexicalized_words _ _ _ _ toy_env toy_cfg 3%nat
              ["a"; "ball"]%string (observe_n 6)) as (V & _ & L & _).
  - intros w [<-|[<-|[]]]; [now left | right; vm_compute; reflexivity].
  - split; assumption.
Defined.
